(** * Spice trade dashboard: the data-preparation pipeline and its queries

    A shallow embedding of [source_code.py]: the module-level pandas
    pipeline (numeric-code cleaning, left join, continent classification,
    group-by aggregation, derived metrics) and the two callbacks that
    query the finished table ([country_level_plots] for the world rank,
    [top5_plot_and_table] for the scoped top five with market share).

    A data frame is a list of rows, one record type per pipeline stage.
    A float64 cell is a [spec_float] at precision 53 and maximal exponent
    1024, so that NaN, the two infinities and the two zeros behave as they
    do in numpy.  A pandas call that raises is a [Raise] in a small error
    monad. *)

From Stdlib Require Import ZArith List String Ascii Bool Lia.
From Stdlib Require Import SpecFloat Permutation Sorted.
Import ListNotations.

Set Implicit Arguments.

Local Open Scope string_scope.
Local Open Scope list_scope.

(* ================================================================== *)
(** * Definitions *)
(* ================================================================== *)

(** Lexicographic combination of two comparisons. *)
Definition lex (c : comparison) (d : comparison) : comparison :=
  match c with
  | Eq => d
  | _ => c
  end.

(** ** float64 cells *)

Module F64.

Definition float : Type := spec_float.

Definition prec : Z := 53.
Definition emax : Z := 1024.

Definition add : float -> float -> float := SFadd prec emax.
Definition sub : float -> float -> float := SFsub prec emax.
Definition mul : float -> float -> float := SFmul prec emax.
Definition div : float -> float -> float := SFdiv prec emax.

Definition ltb : float -> float -> bool := SFltb.
Definition leb : float -> float -> bool := SFleb.
Definition eqb : float -> float -> bool := SFeqb.

(** The float64 nearest to an integer (exact below 2^53). *)
Definition of_Z (z : Z) : float := binary_normalize prec emax z 0 false.

Definition zero : float := S754_zero false.
Definition nan : float := S754_nan.
Definition pinf : float := S754_infinity false.
Definition ninf : float := S754_infinity true.

(** [pd.isna] on a float cell: NaN is pandas' missing value, an
    infinity is not. *)
Definition is_nan (x : float) : bool :=
  match x with S754_nan => true | _ => false end.

Definition is_zero (x : float) : bool :=
  match x with S754_zero _ => true | _ => false end.

Definition is_inf (x : float) : bool :=
  match x with S754_infinity _ => true | _ => false end.

(** A cell as [read_csv] can produce it from a finite decimal literal
    or an empty field: a canonical binary64 number or NaN. *)
Definition regular (x : float) : bool :=
  valid_binary prec emax x && negb (is_inf x).

(** Position of a non-NaN float in the order of [SFcompare], as a
    lexicographic triple (class, exponent, mantissa). *)
Definition ord (x : float) : Z * Z * Z :=
  match x with
  | S754_infinity true => (-2, 0, 0)
  | S754_finite true m e => (-1, - e, - Zpos m)
  | S754_zero _ => (0, 0, 0)
  | S754_nan => (0, 0, 0)
  | S754_finite false m e => (1, e, Zpos m)
  | S754_infinity false => (2, 0, 0)
  end%Z.

Definition ord_compare (a b : Z * Z * Z) : comparison :=
  let '(a1, a2, a3) := a in
  let '(b1, b2, b3) := b in
  lex (a1 ?= b1)%Z (lex (a2 ?= b2)%Z (a3 ?= b3)%Z).

(** A number whose exponent is not below that of the subnormals. *)
Definition above_emin (x : float) : Prop :=
  match x with
  | S754_finite _ _ e => (emin prec emax <= e)%Z
  | _ => True
  end.

(** The outcome of a rounding that cannot underflow to zero. *)
Definition rounded (sx : bool) (x : float) : Prop :=
  match x with
  | S754_finite s _ e => s = sx /\ (emin prec emax <= e)%Z
  | S754_infinity s => s = sx
  | _ => False
  end.

(** What a running sum can be: a number other than the negative
    zero. *)
Definition summable (x : float) : Prop :=
  is_nan x = false /\ x <> S754_zero true /\ above_emin x.

End F64.

Definition float : Type := F64.float.

(** ** Exceptions *)

Inductive exn : Type :=
| ValueError
| OverflowError
| IndexError.

Inductive result (A : Type) : Type :=
| Ok (a : A)
| Raise (e : exn).

Arguments Ok {A} a.
Arguments Raise {A} e.

Definition bind {A B : Type} (r : result A) (k : A -> result B) : result B :=
  match r with
  | Ok a => k a
  | Raise e => Raise e
  end.

Notation "x <- r ;; k" := (bind r (fun x => k))
  (at level 61, r at next level, right associativity).

(** Apply a raising function to every cell of a column, in order; the
    first exception aborts the whole column. *)
Fixpoint mapM {A B : Type} (f : A -> result B) (l : list A) : result (list B) :=
  match l with
  | [] => Ok []
  | a :: l' =>
      b <- f a ;;
      bs <- mapM f l' ;;
      Ok (b :: bs)
  end.

(** ** String cleaning of the code columns *)

Definition quote : ascii := Ascii.ascii_of_nat 34.

(** [.str.replace] of the double-quote character by the empty string. *)
Fixpoint str_replace_quote (s : string) : string :=
  match s with
  | EmptyString => EmptyString
  | String c r =>
      if Ascii.eqb c quote then str_replace_quote r
      else String c (str_replace_quote r)
  end.

(** Python's whitespace among the ASCII characters. *)
Definition is_space (c : ascii) : bool :=
  let n := nat_of_ascii c in
  ((9 <=? n) && (n <=? 13) || (28 <=? n) && (n <=? 32))%nat.

Fixpoint lstrip (s : string) : string :=
  match s with
  | EmptyString => EmptyString
  | String c r => if is_space c then lstrip r else s
  end.

Fixpoint rstrip (s : string) : string :=
  match s with
  | EmptyString => EmptyString
  | String c r =>
      match rstrip r with
      | EmptyString => if is_space c then EmptyString else String c EmptyString
      | r' => String c r'
      end
  end.

(** [.str.strip()] *)
Definition str_strip (s : string) : string := rstrip (lstrip s).

Definition digit_of (c : ascii) : option Z :=
  let n := Z.of_nat (nat_of_ascii c) in
  if ((48 <=? n) && (n <=? 57))%Z then Some (n - 48)%Z else None.

(** Digits of a Python integer literal: single underscores are allowed
    between digits. *)
Fixpoint parse_digits (s : string) (acc : Z) (after_digit : bool) : option Z :=
  match s with
  | EmptyString => if after_digit then Some acc else None
  | String c r =>
      match digit_of c with
      | Some d => parse_digits r (10 * acc + d)%Z true
      | None =>
          if Ascii.eqb c "_"%char && after_digit then parse_digits r acc false
          else None
      end
  end.

(** [int(s)] on a string of ASCII characters: optional sign, then
    digits; [None] stands for the ValueError. *)
Definition python_int (s : string) : option Z :=
  match str_strip s with
  | String "+"%char r => parse_digits r 0%Z false
  | String "-"%char r => option_map Z.opp (parse_digits r 0%Z false)
  | r => parse_digits r 0%Z false
  end.

(** [.astype] to the nullable Int64 type, on one string cell: the cast of a string column
    goes through [int] and raises on a string that is not an integer
    literal; nothing is coerced to a missing value. *)
Definition astype_Int64 (s : string) : result Z :=
  match python_int s with
  | None => Raise ValueError
  | Some z =>
      if ((- 2 ^ 63 <=? z) && (z <? 2 ^ 63))%Z then Ok z
      else Raise OverflowError
  end.

(** The whole chain applied to the two numeric-code columns (the cell is
    the string [.astype(str)] made of it). *)
Definition clean_numeric (cell : string) : result Z :=
  astype_Int64 (str_strip (str_replace_quote cell)).

(** ** The two inputs *)

(** One line of [data_raw.csv].  The code cell is the string that
    [.astype(str)] makes of it; the year is already an integer. *)
Record RawTrade : Type := {
  raw_Area_Code : string;
  raw_Area : string;
  raw_Year : Z;
  raw_Import : float;
  raw_Export : float;
  raw_Production : float;
  raw_Consumption : float;
  raw_Unit : string
}.

(** One line of [country_code_conversion.csv]. *)
Record RawRef : Type := {
  raw_Numeric_code : string;
  raw_Alpha_3_code : string
}.

(** ** Cleaned tables *)

Record Trade : Type := {
  t_Area_Code : Z;
  t_Area : string;
  t_Year : Z;
  t_Import : float;
  t_Export : float;
  t_Production : float;
  t_Consumption : float;
  t_Unit : string
}.

Record Ref : Type := {
  ref_Numeric_code : Z;
  ref_Alpha_3_code : string
}.

Definition clean_trade (r : RawTrade) : result Trade :=
  code <- clean_numeric (raw_Area_Code r) ;;
  Ok {| t_Area_Code := code;
        t_Area := raw_Area r;
        t_Year := raw_Year r;
        t_Import := raw_Import r;
        t_Export := raw_Export r;
        t_Production := raw_Production r;
        t_Consumption := raw_Consumption r;
        t_Unit := raw_Unit r |}.

Definition clean_ref (r : RawRef) : result Ref :=
  code <- clean_numeric (raw_Numeric_code r) ;;
  Ok {| ref_Numeric_code := code;
        ref_Alpha_3_code := str_strip (str_replace_quote (raw_Alpha_3_code r)) |}.

(** [data.loc[data.Area == Sudan, code] = 736] *)
Definition fix_sudan (d : Trade) : Trade :=
  if String.eqb (t_Area d) "Sudan" then
    {| t_Area_Code := 736;
       t_Area := t_Area d;
       t_Year := t_Year d;
       t_Import := t_Import d;
       t_Export := t_Export d;
       t_Production := t_Production d;
       t_Consumption := t_Consumption d;
       t_Unit := t_Unit d |}
  else d.

(** Shorten the one long area name. *)
Definition shorten_area (d : Trade) : Trade :=
  if String.eqb (t_Area d)
       "United Kingdom of Great Britain and Northern Ireland" then
    {| t_Area_Code := t_Area_Code d;
       t_Area := "UK and Northern Ireland";
       t_Year := t_Year d;
       t_Import := t_Import d;
       t_Export := t_Export d;
       t_Production := t_Production d;
       t_Consumption := t_Consumption d;
       t_Unit := t_Unit d |}
  else d.

(** ** Left join *)

(** A row of the merged frame: the trade row and the two reference
    columns, which are missing when no reference row has its code. *)
Record Merged : Type := {
  m_trade : Trade;
  m_Numeric_code : option Z;
  m_Alpha_3_code : option string
}.

Definition matches (d : Trade) (ref_table : list Ref) : list Ref :=
  filter (fun r => Z.eqb (ref_Numeric_code r) (t_Area_Code d)) ref_table.

(** A trade row that found no reference row. *)
Definition unmatched_row (d : Trade) : Merged :=
  {| m_trade := d; m_Numeric_code := None; m_Alpha_3_code := None |}.

(** [data.merge(ref_table, how=left, left_on=..., right_on=...)]: the
    left rows in their order, each once per matching reference row and
    once with missing reference columns when there is none. *)
Definition merge (data : list Trade) (ref_table : list Ref) : list Merged :=
  flat_map
    (fun d =>
       match matches d ref_table with
       | [] => [unmatched_row d]
       | ms => map (fun r => {| m_trade := d;
                                m_Numeric_code := Some (ref_Numeric_code r);
                                m_Alpha_3_code := Some (ref_Alpha_3_code r) |})
                   ms
       end)
    data.

(** The mask of the merged rows that found a reference row. *)
Definition matched (m : Merged) : bool :=
  match m_Alpha_3_code m with
  | Some _ => true
  | None => false
  end.

(** ** Continent classification *)

(** The sentinel of the country converter for a code it does not know. *)
Definition not_found : string := "not found".

(** The continents the dashboard knows (the scope picker of tab 4). *)
Definition continents : list string :=
  ["Africa"; "America"; "Asia"; "Europe"; "Oceania"].

(** Modelled from the spec: the contract of the external country
    converter, which is not part of the repository.  A code is resolved
    to one of the five continents or reported as not found. *)
Definition classifier_contract (classify : Z -> string) : Prop :=
  forall code, classify code = not_found \/ In (classify code) continents.

(** The mask of the merged rows the converter resolves. *)
Definition resolved (classify : Z -> string) (m : Merged) : bool :=
  negb (String.eqb (classify (t_Area_Code (m_trade m))) not_found).

(** Rows after column selection and renaming: the four group-by keys and
    the four raw metrics (the [Unit] column does not survive the
    aggregation and is left out here).  A key cell can be missing. *)
Record Row : Type := {
  Area : string;
  Continent : option string;
  ISO_3 : option string;
  Year : Z;
  Import : float;
  Export : float;
  Production : float;
  Consumption : float
}.

(** [cc.convert(names=code, to=continent, src=UNnumeric)] followed by
    the replacement of the sentinel by a missing value.  The converter
    is the external collaborator [classify]. *)
Definition convert (classify : Z -> string) (m : Merged) : option string :=
  let c := classify (t_Area_Code (m_trade m)) in
  if String.eqb c not_found then None else Some c.

(** Classification, [data[data.Continent.notna()]], column selection and
    renaming, in one pass over the merged frame. *)
Definition classify_rows (classify : Z -> string) (merged : list Merged)
  : list Row :=
  flat_map
    (fun m =>
       match convert classify m with
       | None => []
       | Some c =>
           [ {| Area := t_Area (m_trade m);
                Continent := Some c;
                ISO_3 := m_Alpha_3_code m;
                Year := t_Year (m_trade m);
                Import := t_Import (m_trade m);
                Export := t_Export (m_trade m);
                Production := t_Production (m_trade m);
                Consumption := t_Consumption (m_trade m) |} ]
       end)
    merged.

(** ** Aggregation *)

(** A group label: (Area, Continent, ISO-3, Year). *)
Definition key : Type := (string * string * string * Z)%type.

(** The label of a row; [groupby] drops a row with a missing key cell
    (its default [dropna=True]). *)
Definition row_key (r : Row) : option key :=
  match Continent r, ISO_3 r with
  | Some c, Some i => Some (Area r, c, i, Year r)
  | _, _ => None
  end.

Definition key_compare (a b : key) : comparison :=
  let '(a1, a2, a3, a4) := a in
  let '(b1, b2, b3, b4) := b in
  lex (String.compare a1 b1)
      (lex (String.compare a2 b2)
           (lex (String.compare a3 b3) (Z.compare a4 b4))).

Definition key_eqb (a b : key) : bool :=
  match key_compare a b with
  | Eq => true
  | _ => false
  end.

Fixpoint insert_key (k : key) (l : list key) : list key :=
  match l with
  | [] => [k]
  | h :: t =>
      match key_compare k h with
      | Lt => k :: l
      | Eq => l
      | Gt => h :: insert_key k t
      end
  end.

Fixpoint keys_of (rows : list Row) : list key :=
  match rows with
  | [] => []
  | r :: rows' =>
      match row_key r with
      | Some k => k :: keys_of rows'
      | None => keys_of rows'
      end
  end.

(** The distinct labels in ascending order ([sort=True]). *)
Definition group_keys (rows : list Row) : list key :=
  fold_right insert_key [] (keys_of rows).

(** The rows of one group, in table order. *)
Definition group_rows (k : key) (rows : list Row) : list Row :=
  filter
    (fun r => match row_key r with
              | Some k' => key_eqb k' k
              | None => false
              end)
    rows.

(** [sum] of a float column: missing cells are skipped, the others are
    added to 0.0 from the first to the last.  (pandas adds with a
    compensation term in the group-by and pairwise in [Series.sum]; that
    can change the last bit of a rounded sum and nothing else, and is
    not modelled.) *)
Definition sum (vals : list float) : float :=
  fold_left (fun acc v => if F64.is_nan v then acc else F64.add acc v)
            vals F64.zero.

(** The row a group collapses to: its label and the four sums. *)
Definition group_sum (rows : list Row) (k : key) : Row :=
  let '(a, c, i, y) := k in
  let g := group_rows k rows in
  {| Area := a;
     Continent := Some c;
     ISO_3 := Some i;
     Year := y;
     Import := sum (map Import g);
     Export := sum (map Export g);
     Production := sum (map Production g);
     Consumption := sum (map Consumption g) |}.

(** [data.groupby([Area, Continent, ISO-3, Year]).agg(sum of the four
    metrics).reset_index()] *)
Definition aggregate (rows : list Row) : list Row :=
  map (group_sum rows) (group_keys rows).

Definition key_lt (a b : key) : Prop := key_compare a b = Lt.

(** A table whose metric cells are finite numbers or missing. *)
Definition regular_row (r : Row) : Prop :=
  F64.regular (Import r) = true
  /\ F64.regular (Export r) = true
  /\ F64.regular (Production r) = true
  /\ F64.regular (Consumption r) = true.

(** ** Derived metrics *)

(** A row of the finished table [data]. *)
Record Canon : Type := {
  base : Row;
  Net_Trade : float;
  Self_Sufficiency_Ratio : float
}.

Definition derive (r : Row) : Canon :=
  {| base := r;
     Net_Trade := F64.sub (Export r) (Import r);
     Self_Sufficiency_Ratio := F64.div (Production r) (Consumption r) |}.

(** ** The whole build *)

(** Everything after the join. *)
Definition finish (classify : Z -> string) (merged : list Merged)
  : list Canon :=
  map derive (aggregate (classify_rows classify merged)).

(** The module-level script, from the two raw frames to [data]. *)
Definition build (classify : Z -> string)
           (data_raw : list RawTrade) (ref_raw : list RawRef)
  : result (list Canon) :=
  data <- mapM clean_trade data_raw ;;
  ref_table <- mapM clean_ref ref_raw ;;
  let data := map shorten_area (map fix_sudan data) in
  Ok (finish classify (merge data ref_table)).

(** ** Metrics *)

Inductive metric : Type :=
| M_Import
| M_Export
| M_Production
| M_Consumption
| M_Net_Trade
| M_Self_Sufficiency_Ratio.

(** The list [metrics] of [country_level_plots]. *)
Definition metrics : list metric :=
  [M_Import; M_Export; M_Production; M_Consumption; M_Net_Trade;
   M_Self_Sufficiency_Ratio].

(** [row[metric]] *)
Definition column (m : metric) (r : Canon) : float :=
  match m with
  | M_Import => Import (base r)
  | M_Export => Export (base r)
  | M_Production => Production (base r)
  | M_Consumption => Consumption (base r)
  | M_Net_Trade => Net_Trade r
  | M_Self_Sufficiency_Ratio => Self_Sufficiency_Ratio r
  end.

(** ** World rank *)

(** Descending order of the values that are not missing. *)
Fixpoint insert_desc (v : float) (l : list float) : list float :=
  match l with
  | [] => [v]
  | h :: t => if F64.leb h v then v :: l else h :: insert_desc v t
  end.

Definition sort_desc (l : list float) : list float :=
  fold_right insert_desc [] l.

(** Two neighbours of a descending list. *)
Definition desc (a b : float) : Prop := F64.leb b a = true.

(** Position of the first value equal to [v]. *)
Fixpoint first_index (v : float) (l : list float) : nat :=
  match l with
  | [] => 0
  | h :: t => if F64.eqb h v then 0 else S (first_index v t)
  end.

(** [rank(method=min, ascending=False)] of one value within the values
    of its group, then the cast to the nullable Int64: the values that
    are not missing are put in descending order and numbered from 1, a
    value takes the lowest number among its ties, and a missing value
    keeps a missing rank. *)
Definition rank_min (vals : list float) (v : float) : option nat :=
  if F64.is_nan v then None
  else Some (S (first_index v
                  (sort_desc (filter (fun x => negb (F64.is_nan x)) vals)))).

Definition indexed {A : Type} (l : list A) : list (nat * A) :=
  combine (seq 0 (List.length l)) l.

(** The group labels of [groupby(Year)]. *)
Definition years (data : list Canon) : list Z :=
  nodup Z.eq_dec (map (fun r => Year (base r)) data).

(** The members of one group: position in the frame and metric value. *)
Definition group_of_year (m : metric) (y : Z) (data : list Canon)
  : list (nat * float) :=
  map (fun ir => (fst ir, column m (snd ir)))
      (filter (fun ir => Z.eqb (Year (base (snd ir))) y) (indexed data)).

(** The ranks of one group, each with the position it goes back to. *)
Definition rank_group (g : list (nat * float)) : list (nat * option nat) :=
  map (fun iv => (fst iv, rank_min (map snd g) (snd iv))) g.

Fixpoint lookup {B : Type} (i : nat) (l : list (nat * B)) : option B :=
  match l with
  | [] => None
  | (j, r) :: l' => if Nat.eqb i j then Some r else lookup i l'
  end.

(** [data.groupby(Year)[metric].rank(method=min, ascending=False)
    .astype(Int64)]: split by year, rank each group, and put every rank
    back at the position of its row (a position no group holds would
    keep a missing rank). *)
Definition world_rank (m : metric) (data : list Canon) : list (option nat) :=
  let ranked :=
    flat_map (fun y => rank_group (group_of_year m y data)) (years data) in
  map (fun i => match lookup i ranked with
                | Some r => r
                | None => None
                end)
      (seq 0 (List.length data)).

(** A row of the exported frame [world_rank_data]: area, year and one
    rank per metric, in the order of [metrics]. *)
Record RankRow : Type := {
  rk_Area : string;
  rk_Year : Z;
  rk_Rank : list (option nat)
}.

Definition world_rank_data (data : list Canon) : list RankRow :=
  let cols := map (fun m => world_rank m data) metrics in
  map (fun ir =>
         {| rk_Area := Area (base (snd ir));
            rk_Year := Year (base (snd ir));
            rk_Rank := map (fun col => nth (fst ir) col None) cols |})
      (indexed data).

(** The position of a metric in [metrics], and the cell of its rank
    column in a row of the export. *)
Definition metric_index (m : metric) : nat :=
  match m with
  | M_Import => 0
  | M_Export => 1
  | M_Production => 2
  | M_Consumption => 3
  | M_Net_Trade => 4
  | M_Self_Sufficiency_Ratio => 5
  end.

Definition rank_cell (m : metric) (row : RankRow) : option nat :=
  nth (metric_index m) (rk_Rank row) None.

(** [data[data.Year == y]] *)
Definition year_slice (y : Z) (data : list Canon) : list Canon :=
  filter (fun r => Z.eqb (Year (base r)) y) data.

(** The number of rows of the same year with a strictly greater value
    of the metric. *)
Definition greater_in_year (m : metric) (data : list Canon) (r : Canon)
  : nat :=
  List.length
    (filter (fun r' => F64.ltb (column m r) (column m r'))
            (year_slice (Year (base r)) data)).

(** Competition ranking in the words of the specification: one plus the
    number of rows of the same year with a strictly greater value. *)
Definition competition_rank (m : metric) (data : list Canon) (r : Canon)
  : option nat :=
  Some (S (greater_in_year m data r)).

(** The same, with a missing rank for a missing value. *)
Definition rank_of (m : metric) (data : list Canon) (r : Canon)
  : option nat :=
  if F64.is_nan (column m r) then None else competition_rank m data r.

(** The mask of the rows whose value of the metric is not missing. *)
Definition present (m : metric) (r : Canon) : bool :=
  negb (F64.is_nan (column m r)).

Definition is_some {A : Type} (o : option A) : bool :=
  match o with
  | Some _ => true
  | None => false
  end.

(** ** Top five with market share *)

Definition the_Whole_World : string := "the Whole World".

(** The boolean mask of [top5_plot_and_table]. *)
Definition in_scope (year : Z) (scope : string) (r : Canon) : bool :=
  if String.eqb scope the_Whole_World then Z.eqb (Year (base r)) year
  else
    Z.eqb (Year (base r)) year
    && match Continent (base r) with
       | Some c => String.eqb c scope
       | None => false
       end.

(** [x] may stand before [y] in a descending sort with the missing
    values last. *)
Definition before (x y : float) : bool :=
  F64.is_nan y || (negb (F64.is_nan x) && F64.leb y x).

Fixpoint insert_row (m : metric) (r : Canon) (l : list Canon) : list Canon :=
  match l with
  | [] => [r]
  | h :: t =>
      if before (column m r) (column m h) then r :: l
      else h :: insert_row m r t
  end.

(** [sort_values(metric, ascending=False)].  pandas leaves the order of
    equal values open; here they keep their table order. *)
Definition sort_values (m : metric) (l : list Canon) : list Canon :=
  fold_right (insert_row m) [] l.

(** [series.iloc[i]] *)
Definition iloc {A : Type} (l : list A) (i : nat) : result A :=
  match nth_error l i with
  | Some a => Ok a
  | None => Raise IndexError
  end.

(** What the callback hands to the summary table: five names and five
    market shares (in percent, before they are printed with two
    decimals). *)
Record Top5 : Type := {
  country_name : list string;
  market_share : list float
}.

(** The market share of one selected row, in percent. *)
Definition share_of (m : metric) (market_total : float) (r : Canon) : float :=
  F64.mul (F64.div (column m r) market_total) (F64.of_Z 100).

(** The summary table: the names and the shares are read off the
    selected rows at the positions 0 to 4, and a position the frame does
    not have raises. *)
Definition summary_table (m : metric) (plot_df : list Canon)
           (market_total : float) : result Top5 :=
  let name i := iloc (map (fun r => Area (base r)) plot_df) i in
  let share i :=
    v <- iloc (map (column m) plot_df) i ;;
    Ok (F64.mul (F64.div v market_total) (F64.of_Z 100)) in
  n1 <- name 0 ;;
  n2 <- name 1 ;;
  n3 <- name 2 ;;
  n4 <- name 3 ;;
  n5 <- name 4 ;;
  s1 <- share 0 ;;
  s2 <- share 1 ;;
  s3 <- share 2 ;;
  s4 <- share 3 ;;
  s5 <- share 4 ;;
  Ok {| country_name := [n1; n2; n3; n4; n5];
        market_share := [s1; s2; s3; s4; s5] |}.

Definition top5_plot_and_table (m : metric) (year : Z) (scope : string)
           (data : list Canon) : result Top5 :=
  let scoped := filter (in_scope year scope) data in
  let plot_df := firstn 5 (sort_values m scoped) in
  let market_total := sum (map (column m) scoped) in
  summary_table m plot_df market_total.

(** Two neighbours of a frame sorted by a metric, descending. *)
Definition row_before (m : metric) (a b : Canon) : Prop :=
  before (column m a) (column m b) = true.

(** ** Concrete data for the examples *)

Definition mk_raw (code area : string) (year imp exp prod cons : Z)
  : RawTrade :=
  {| raw_Area_Code := code;
     raw_Area := area;
     raw_Year := year;
     raw_Import := F64.of_Z imp;
     raw_Export := F64.of_Z exp;
     raw_Production := F64.of_Z prod;
     raw_Consumption := F64.of_Z cons;
     raw_Unit := "tonnes" |}.

Definition mk_row (area continent iso : string) (year : Z)
           (imp exp prod cons : float) : Row :=
  {| Area := area;
     Continent := Some continent;
     ISO_3 := Some iso;
     Year := year;
     Import := imp;
     Export := exp;
     Production := prod;
     Consumption := cons |}.

(** A converter that knows four codes. *)
Definition classify_demo (code : Z) : string :=
  if Z.eqb code 4 then "Asia"
  else if Z.eqb code 356 then "Asia"
  else if Z.eqb code 250 then "Europe"
  else if Z.eqb code 736 then "Africa"
  else not_found.

Definition ref_demo : list RawRef :=
  [ {| raw_Numeric_code := "004"; raw_Alpha_3_code := "AFG" |};
    {| raw_Numeric_code := " 356 "; raw_Alpha_3_code := "IND" |};
    {| raw_Numeric_code := "250"; raw_Alpha_3_code := " FRA" |} ].

(** A row of Testland in 2000 with a given import. *)
Definition testland (imp : float) : Row :=
  mk_row "Testland" "Europe" "TST" 2000 imp F64.zero F64.zero F64.zero.

(** A cleaned trade row. *)
Definition mk_trade (code : Z) (area : string) (year imp exp prod cons : Z)
  : Trade :=
  {| t_Area_Code := code;
     t_Area := area;
     t_Year := year;
     t_Import := F64.of_Z imp;
     t_Export := F64.of_Z exp;
     t_Production := F64.of_Z prod;
     t_Consumption := F64.of_Z cons;
     t_Unit := "tonnes" |}.

(** A reference table without the code 736, which the converter knows. *)
Definition ref_table_demo : list Ref :=
  [ {| ref_Numeric_code := 4; ref_Alpha_3_code := "AFG" |};
    {| ref_Numeric_code := 356; ref_Alpha_3_code := "IND" |} ].

(** Two trade rows, the first with the unreferenced code. *)
Definition trade_unmatched : list Trade :=
  [mk_trade 736 "Sudan" 2000 3 1 7 5; mk_trade 4 "Afghanistan" 2000 10 1 5 2].

(** A raw frame whose second code the converter does not know. *)
Definition raw_unresolved : list RawTrade :=
  [mk_raw "4" "Afghanistan" 2000 10 1 5 2; mk_raw "999" "Nowhere" 2000 1 1 1 1].

(** Three rows of the year 2000 whose ratios are 0/0, 1/0 and 1/2. *)
Definition ratio_rows : list Canon :=
  map derive
      [ mk_row "A" "Asia" "AAA" 2000 (F64.of_Z 3) F64.zero
               F64.zero F64.zero;
        mk_row "B" "Asia" "BBB" 2000 (F64.of_Z 3) F64.zero
               (F64.of_Z 1) F64.zero;
        mk_row "D" "Asia" "DDD" 2000 (F64.of_Z 7) F64.zero
               (F64.of_Z 1) (F64.of_Z 2) ].

(** An Asian row of 2020 with a given production. *)
Definition asia (area : string) (prod : Z) : Canon :=
  derive (mk_row area "Asia" "XXX" 2020 F64.zero F64.zero
                 (F64.of_Z prod) (F64.of_Z 1)).

(** Six Asian rows with productions 50, 40, 30, 20, 10 and 30 (180 in
    all), and a European row. *)
Definition asia_rows : list Canon :=
  [ asia "E" 10; asia "B" 40; asia "F" 30; asia "A" 50;
    derive (mk_row "Z" "Europe" "ZZZ" 2020 F64.zero F64.zero
                   (F64.of_Z 90) (F64.of_Z 1));
    asia "C" 30; asia "D" 20 ].

(** Three Asian rows of 2020. *)
Definition asia_three : list Canon :=
  [ asia "A" 50; asia "B" 40; asia "C" 30 ].

(** A raw frame in which one code is not an integer literal. *)
Definition raw_bad_code : list RawTrade :=
  [mk_raw "4" "Afghanistan" 2000 10 1 5 2; mk_raw "abc" "Nowhere" 2000 1 1 1 1].

(** A raw frame with one row of production 5 and consumption 0, and
    the row it becomes. *)
Definition raw_zero_consumption : list RawTrade :=
  [mk_raw "4" "Afghanistan" 2000 10 1 5 0].

Definition row_zero_consumption : Canon :=
  derive (mk_row "Afghanistan" "Asia" "AFG" 2000
                 (F64.of_Z 10) (F64.of_Z 1) (F64.of_Z 5) F64.zero).

(** ** Sorted labels of a group-by *)

(** The distinct labels of a column in ascending order, for any
    comparison of labels. *)
Fixpoint insert_label {K : Type} (cmp : K -> K -> comparison) (k : K)
         (l : list K) : list K :=
  match l with
  | [] => [k]
  | h :: t =>
      match cmp k h with
      | Lt => k :: l
      | Eq => l
      | Gt => h :: insert_label cmp k t
      end
  end.

Definition labels {K : Type} (cmp : K -> K -> comparison) (ks : list K)
  : list K :=
  fold_right (insert_label cmp) [] ks.

(** ** Tab 1: the world average across years *)

(** [mean] of a float column: the sum of the cells that are not missing
    over their number; no such cell gives 0.0 / 0 = NaN. *)
Definition mean (vals : list float) : float :=
  F64.div (sum vals)
          (F64.of_Z
             (Z.of_nat
                (List.length (filter (fun v => negb (F64.is_nan v)) vals)))).

(** [data.groupby(Year)[metric].mean().to_frame().reset_index()] *)
Definition global_time_series (m : metric) (data : list Canon)
  : list (Z * float) :=
  map (fun y => (y, mean (map (column m) (year_slice y data))))
      (labels Z.compare (map (fun r => Year (base r)) data)).

(** ** Tab 2: continental totals *)

(** A label of [groupby([Continent, Year])]. *)
Definition ckey : Type := (string * Z)%type.

Definition ckey_compare (a b : ckey) : comparison :=
  lex (String.compare (fst a) (fst b)) (Z.compare (snd a) (snd b)).

Fixpoint ckeys_of (data : list Canon) : list ckey :=
  match data with
  | [] => []
  | r :: data' =>
      match Continent (base r) with
      | Some c => (c, Year (base r)) :: ckeys_of data'
      | None => ckeys_of data'
      end
  end.

(** The mask of the rows of one (continent, year) cell. *)
Definition in_cell (k : ckey) (r : Canon) : bool :=
  match Continent (base r) with
  | Some c => String.eqb c (fst k) && Z.eqb (Year (base r)) (snd k)
  | None => false
  end.

(** [data.groupby([Continent, Year]).agg({metric: sum}).reset_index()] *)
Definition continent_plot_df (m : metric) (data : list Canon)
  : list (ckey * float) :=
  map (fun k => (k, sum (map (column m) (filter (in_cell k) data))))
      (labels ckey_compare (ckeys_of data)).

(** A row of the exported frame [continental_df]. *)
Record ContRow : Type := {
  cr_Continent : string;
  cr_Year : Z;
  cr_Import : float;
  cr_Export : float;
  cr_Production : float;
  cr_Consumption : float
}.

Definition continental_df (data : list Canon) : list ContRow :=
  map (fun k =>
         let g := filter (in_cell k) data in
         {| cr_Continent := fst k;
            cr_Year := snd k;
            cr_Import := sum (map (column M_Import) g);
            cr_Export := sum (map (column M_Export) g);
            cr_Production := sum (map (column M_Production) g);
            cr_Consumption := sum (map (column M_Consumption) g) |})
      (labels ckey_compare (ckeys_of data)).

(** What a callback can do instead of returning. *)
Inductive update (A : Type) : Type :=
| Update (a : A)
| PreventUpdate.

Arguments Update {A} a.
Arguments PreventUpdate {A}.

(** The bar chart of [continent_analysis_plots2]: the continental totals
    of the hovered year ([hoverData] is the x of the first hovered
    point, or nothing). *)
Definition continent_analysis_plots2 (m : metric) (hoverData : option Z)
           (data : list Canon) : update (list (ckey * float)) :=
  match hoverData with
  | None => PreventUpdate
  | Some x =>
      Update (filter (fun kv => Z.eqb (snd (fst kv)) x)
                     (continent_plot_df m data))
  end.

(** ** Tab 3: the callback around the world rank *)

(** The column name of a metric. *)
Definition metric_name (m : metric) : string :=
  match m with
  | M_Import => "Import"
  | M_Export => "Export"
  | M_Production => "Production"
  | M_Consumption => "Consumption"
  | M_Net_Trade => "Net Trade"
  | M_Self_Sufficiency_Ratio => "Self-Sufficiency Ratio"
  end.

(** A line chart: the metric on its y axis and its points (area, year,
    value) in the order of the frame. *)
Record Figure (A : Type) : Type := {
  y_metric : metric;
  points : list (string * Z * A)
}.

(** The six outputs of [country_level_plots] (the description is a
    constant text and is left out); [None] is the empty figure, and no
    download stands for [no_update]. *)
Record Tab3 : Type := {
  tab3_title : string;
  country_time_series : option (Figure float);
  country_world_rank : option (Figure (option nat));
  tab3_warning : string;
  tab3_download : option (list RankRow)
}.

(** The mask [cond]: the area is selected and the year lies in
    [range(start_year, end_year + 1)]. *)
Definition cond (countries : list string) (start_year end_year : Z)
           (r : Canon) : bool :=
  existsb (String.eqb (Area (base r))) countries
  && (Z.leb start_year (Year (base r)) && Z.leb (Year (base r)) end_year).

(** The variable [metric] after [for metric in metrics]: the loop
    rebinds the parameter at every turn. *)
Definition after_loop (metric0 : metric) : metric :=
  fold_left (fun _ m => m) metrics metric0.

Definition country_level_plots (countries : option (list string))
           (metric0 : metric) (start_year end_year : option Z)
           (triggered : bool) (data : list Canon) : Tab3 :=
  let title :=
    ("Country-level Deep Dive of Spice " ++ metric_name metric0)%string in
  let export := world_rank_data data in
  let metric1 := after_loop metric0 in
  let download_df := if triggered then Some export else None in
  match countries, start_year, end_year with
  | Some countries, Some start_year, Some end_year =>
      if Z.leb end_year start_year then
        {| tab3_title := title;
           country_time_series := None;
           country_world_rank := None;
           tab3_warning := "End year must be greater than start year.";
           tab3_download := download_df |}
      else
        let selected := filter (cond countries start_year end_year) in
        let data_with_world_rank := combine data (world_rank metric1 data) in
        {| tab3_title := title;
           country_time_series :=
             Some {| y_metric := metric1;
                     points :=
                       map (fun r => (Area (base r), Year (base r),
                                      column metric1 r))
                           (selected data) |};
           country_world_rank :=
             Some {| y_metric := metric1;
                     points :=
                       map (fun rk => (Area (base (fst rk)),
                                       Year (base (fst rk)), snd rk))
                           (filter (fun rk =>
                                      cond countries start_year end_year
                                           (fst rk))
                                   data_with_world_rank) |};
           tab3_warning := "";
           tab3_download := download_df |}
  | _, _, _ =>
      {| tab3_title := title;
         country_time_series := None;
         country_world_rank := None;
         tab3_warning := "";
         tab3_download := download_df |}
  end.

(** ** Masks and shapes used in the statements *)

(** A string without the double-quote character. *)
Fixpoint quote_free (s : string) : bool :=
  match s with
  | EmptyString => true
  | String c r => negb (Ascii.eqb c quote) && quote_free r
  end.

(** The decimal digit [d] as a character, and a list of digits as a
    string and as the number it denotes. *)
Definition digit_char (d : nat) : ascii := ascii_of_nat (48 + d).

Fixpoint digits_string (ds : list nat) : string :=
  match ds with
  | [] => EmptyString
  | d :: ds' => String (digit_char d) (digits_string ds')
  end.

Definition digits_value (ds : list nat) : Z :=
  fold_left (fun acc d => (10 * acc + Z.of_nat d)%Z) ds 0%Z.

(** Two raw trade rows that agree on everything but, for a row of Sudan,
    the code cell. *)
Definition same_but_sudan_code (a b : RawTrade) : Prop :=
  raw_Area a = raw_Area b
  /\ raw_Year a = raw_Year b
  /\ raw_Import a = raw_Import b
  /\ raw_Export a = raw_Export b
  /\ raw_Production a = raw_Production b
  /\ raw_Consumption a = raw_Consumption b
  /\ raw_Unit a = raw_Unit b
  /\ (raw_Area a <> "Sudan" -> raw_Area_Code a = raw_Area_Code b).

Definition long_uk_name : string :=
  "United Kingdom of Great Britain and Northern Ireland".

(** The signs of two floats agree (used for two infinities). *)
Definition same_sign (x y : float) : bool :=
  match x, y with
  | S754_infinity sx, S754_infinity sy => Bool.eqb sx sy
  | _, _ => false
  end.

(** Two raw frames that differ in the code of a Sudan row only, and a
    reference table with a repeated code. *)
Definition raw_sudan_a : list RawTrade :=
  [mk_raw "729" "Sudan" 2000 3 1 7 5; mk_raw "4" "Afghanistan" 2000 10 1 5 2].

Definition raw_sudan_b : list RawTrade :=
  [mk_raw "1" "Sudan" 2000 3 1 7 5; mk_raw "4" "Afghanistan" 2000 10 1 5 2].

(** Five Asian rows of 2020 that produce nothing. *)
Definition asia_idle : list Canon :=
  [ asia "A" 0; asia "B" 0; asia "C" 0; asia "D" 0; asia "E" 0 ].

(* ================================================================== *)
(** * Facts about float64 cells *)
(* ================================================================== *)

Module F64Facts.
Import F64.

(** *** The order of the comparisons *)

Ltac split_triples :=
  repeat match goal with
         | a : (Z * Z * Z)%type |- _ => destruct a as [[? ?] ?]
         end.

Ltac by_compare_spec :=
  unfold ord_compare, lex in *;
  repeat match goal with
         | H : context [(?a ?= ?b)%Z] |- _ =>
             destruct (Z.compare_spec a b)
         | |- context [(?a ?= ?b)%Z] =>
             destruct (Z.compare_spec a b)
         end;
  try discriminate; try reflexivity; try lia;
  try (f_equal; lia).

Lemma ord_compare_refl a : ord_compare a a = Eq.
Proof. split_triples. by_compare_spec. Qed.

Lemma ord_compare_eq a b : ord_compare a b = Eq -> a = b.
Proof.
  split_triples. intros H.
  assert (z = z2 /\ z0 = z3 /\ z1 = z4)%Z as (-> & -> & ->);
    [by_compare_spec | reflexivity].
Qed.

Lemma ord_compare_antisym a b :
  ord_compare b a = CompOpp (ord_compare a b).
Proof. split_triples. by_compare_spec. Qed.

Lemma ord_compare_lt_trans a b c :
  ord_compare a b = Lt -> ord_compare b c = Lt -> ord_compare a c = Lt.
Proof. split_triples. intros H1 H2. by_compare_spec. Qed.

(** On numbers, [SFcompare] is the comparison of the positions. *)
Lemma compare_ord (x y : float) :
  is_nan x = false -> is_nan y = false ->
  SFcompare x y = Some (ord_compare (ord x) (ord y)).
Proof.
  destruct x as [[]|[]| |[] mx ex], y as [[]|[]| |[] my ey];
    simpl; intros Hx Hy; try discriminate; try reflexivity; f_equal.
  - rewrite Z.compare_opp, (Z.compare_antisym ex ey).
    destruct (ex ?= ey)%Z; reflexivity.
  - destruct (ex ?= ey)%Z; reflexivity.
Qed.

Lemma compare_nan_l (y : float) : SFcompare S754_nan y = None.
Proof. now destruct y. Qed.

Lemma compare_nan_r (x : float) : SFcompare x S754_nan = None.
Proof. now destruct x as [| | |[]]. Qed.

Lemma is_nan_true (x : float) : is_nan x = true -> x = S754_nan.
Proof. now destruct x. Qed.

Lemma ltb_nan_r (x y : float) : is_nan y = true -> ltb x y = false.
Proof.
  intros H. apply is_nan_true in H. subst y.
  unfold ltb, SFltb. now rewrite compare_nan_r.
Qed.

Lemma ltb_ord (x y : float) :
  is_nan x = false -> is_nan y = false ->
  ltb x y = true <-> ord_compare (ord x) (ord y) = Lt.
Proof.
  intros Hx Hy. unfold ltb, SFltb. rewrite (compare_ord x y Hx Hy).
  destruct (ord_compare (ord x) (ord y)); split; congruence.
Qed.

Lemma eqb_ord (x y : float) :
  is_nan x = false -> is_nan y = false ->
  eqb x y = true <-> ord_compare (ord x) (ord y) = Eq.
Proof.
  intros Hx Hy. unfold eqb, SFeqb. rewrite (compare_ord x y Hx Hy).
  destruct (ord_compare (ord x) (ord y)); split; congruence.
Qed.

Lemma leb_ord (x y : float) :
  is_nan x = false -> is_nan y = false ->
  leb x y = true <-> ord_compare (ord x) (ord y) <> Gt.
Proof.
  intros Hx Hy. unfold leb, SFleb. rewrite (compare_ord x y Hx Hy).
  destruct (ord_compare (ord x) (ord y)); split; congruence.
Qed.

Lemma eqb_refl (x : float) : is_nan x = false -> eqb x x = true.
Proof. intros H. apply eqb_ord; auto. apply ord_compare_refl. Qed.

Lemma leb_total (x y : float) :
  is_nan x = false -> is_nan y = false ->
  leb x y = false -> leb y x = true.
Proof.
  intros Hx Hy H. apply leb_ord; auto.
  assert (ord_compare (ord x) (ord y) = Gt) as HG.
  { destruct (ord_compare (ord x) (ord y)) eqn:E; auto;
      exfalso; apply Bool.not_true_iff_false in H; apply H;
      apply leb_ord; auto; congruence. }
  rewrite ord_compare_antisym, HG. discriminate.
Qed.

Lemma leb_trans (x y z : float) :
  is_nan x = false -> is_nan y = false -> is_nan z = false ->
  leb x y = true -> leb y z = true -> leb x z = true.
Proof.
  intros Hx Hy Hz H1 H2.
  apply leb_ord in H1; auto. apply leb_ord in H2; auto.
  apply leb_ord; auto.
  destruct (ord x) as [[a1 a2] a3], (ord y) as [[b1 b2] b3],
           (ord z) as [[c1 c2] c3].
  revert H1 H2. by_compare_spec; congruence.
Qed.

(** A value equal to the head of a descending list has nothing
    strictly above it further down. *)
Lemma ltb_false_of_leb (v h x : float) :
  is_nan v = false -> is_nan h = false -> is_nan x = false ->
  eqb h v = true -> leb x h = true -> ltb v x = false.
Proof.
  intros Hv Hh Hx E L.
  apply eqb_ord in E; auto. apply leb_ord in L; auto.
  apply Bool.not_true_iff_false. intros T. apply ltb_ord in T; auto.
  destruct (ord x) as [[a1 a2] a3], (ord h) as [[b1 b2] b3],
           (ord v) as [[c1 c2] c3].
  revert E L T. by_compare_spec; congruence.
Qed.

Lemma ltb_of_leb_neq (v h : float) :
  is_nan v = false -> is_nan h = false ->
  leb v h = true -> eqb h v = false -> ltb v h = true.
Proof.
  intros Hv Hh L E.
  apply leb_ord in L; auto. apply ltb_ord; auto.
  apply Bool.not_true_iff_false in E.
  destruct (ord_compare (ord v) (ord h)) eqn:C; try congruence.
  exfalso. apply E. apply eqb_ord; auto.
  rewrite ord_compare_antisym, C. reflexivity.
Qed.

Lemma eqb_ltb_congr (v w x : float) :
  is_nan v = false -> is_nan w = false -> is_nan x = false ->
  eqb v w = true -> ltb v x = ltb w x.
Proof.
  intros Hv Hw Hx E. apply eqb_ord in E; auto.
  apply ord_compare_eq in E.
  unfold ltb, SFltb. rewrite !compare_ord; auto. now rewrite E.
Qed.


(** *** Rounding never invents a NaN or a negative zero *)

Lemma shr_1_div2 (mrs : shr_record) :
  (0 <= shr_m mrs)%Z -> shr_m (shr_1 mrs) = (shr_m mrs / 2)%Z.
Proof.
  destruct mrs as [m r s]. simpl. intros H.
  rewrite <- Z.div2_div.
  destruct m as [|[p|p|]|p]; try reflexivity; lia.
Qed.

Lemma iter_shr_1 (p : positive) :
  forall mrs : shr_record,
    (0 <= shr_m mrs)%Z ->
    shr_m (iter_pos shr_1 p mrs) = (shr_m mrs / 2 ^ Zpos p)%Z.
Proof.
  induction p as [p IH|p IH|]; intros mrs H; simpl iter_pos.
  - assert (0 <= shr_m (shr_1 mrs))%Z as H1
        by (rewrite shr_1_div2 by assumption; apply Z.div_pos; lia).
    assert (0 <= shr_m (iter_pos shr_1 p (shr_1 mrs)))%Z as H2
        by (rewrite IH by assumption; apply Z.div_pos; lia).
    rewrite IH, IH, shr_1_div2 by assumption.
    rewrite !Z.div_div by lia. f_equal.
    rewrite Pos2Z.inj_xI, Z.pow_add_r, Z.pow_mul_r by lia.
    change (2 ^ 2)%Z with 4%Z. change (2 ^ 1)%Z with 2%Z.
    rewrite <- Z.pow_twice_r.
    rewrite Z.pow_mul_r by lia. change (2 ^ 2)%Z with 4%Z. lia.
  - assert (0 <= shr_m (iter_pos shr_1 p mrs))%Z as H2
        by (rewrite IH by assumption; apply Z.div_pos; lia).
    rewrite IH, IH by assumption.
    rewrite !Z.div_div by lia. f_equal.
    rewrite Pos2Z.inj_xO, <- Z.pow_twice_r. reflexivity.
  - rewrite shr_1_div2 by assumption. reflexivity.
Qed.


Lemma digits2_pos_bound (p : positive) :
  (2 ^ (Zpos (digits2_pos p) - 1) <= Zpos p)%Z.
Proof.
  induction p as [p IH|p IH|]; simpl digits2_pos.
  - rewrite Pos2Z.inj_succ.
    replace (Z.succ (Zpos (digits2_pos p)) - 1)%Z
      with (1 + (Zpos (digits2_pos p) - 1))%Z by lia.
    rewrite Z.pow_add_r by lia. change (2 ^ 1)%Z with 2%Z. lia.
  - rewrite Pos2Z.inj_succ.
    replace (Z.succ (Zpos (digits2_pos p)) - 1)%Z
      with (1 + (Zpos (digits2_pos p) - 1))%Z by lia.
    rewrite Z.pow_add_r by lia. change (2 ^ 1)%Z with 2%Z. lia.
  - simpl. lia.
Qed.

Lemma shr_m_of_loc (m : Z) (l : location) :
  shr_m (shr_record_of_loc m l) = m.
Proof. destruct l as [|[]]; reflexivity. Qed.

(** The first shift of a rounding keeps a mantissa that is not
    negative that way. *)
Lemma shr_fexp_nonneg (m e : Z) (l : location) :
  (0 <= m)%Z -> (0 <= shr_m (fst (shr_fexp prec emax m e l)))%Z.
Proof.
  intros H. unfold shr_fexp, shr.
  destruct (fexp prec emax (Zdigits2 m + e) - e)%Z as [|k|k]; simpl;
    rewrite ?shr_m_of_loc; try lia.
  rewrite iter_shr_1 by (rewrite shr_m_of_loc; lia).
  rewrite shr_m_of_loc. apply Z.div_pos; lia.
Qed.

(** From the exponent of the subnormals upwards, it keeps a positive
    mantissa positive. *)
Lemma shr_fexp_pos (m e : Z) (l : location) :
  (0 < m)%Z -> (emin prec emax <= e)%Z ->
  (0 < shr_m (fst (shr_fexp prec emax m e l)))%Z
  /\ (emin prec emax <= snd (shr_fexp prec emax m e l))%Z.
Proof.
  intros Hm He. unfold shr_fexp, shr.
  destruct (fexp prec emax (Zdigits2 m + e) - e)%Z as [|k|k] eqn:E; simpl;
    rewrite ?shr_m_of_loc; try (split; lia).
  rewrite iter_shr_1 by (rewrite shr_m_of_loc; lia).
  rewrite shr_m_of_loc.
  destruct m as [|q|q]; try lia. simpl Zdigits2 in E.
  unfold fexp, emin, prec, emax in *.
  pose proof (digits2_pos_bound q) as B.
  split; [|lia].
  apply Z.div_str_pos. split; [apply Z.pow_pos_nonneg; lia|].
  eapply Z.le_trans; [|exact B].
  apply Z.pow_le_mono_r; lia.
Qed.

Lemma round_nearest_even_ge (m : Z) (l : location) :
  (m <= round_nearest_even m l)%Z.
Proof.
  destruct l as [|[]]; simpl; try lia. destruct (Z.even m); lia.
Qed.

Lemma binary_round_aux_not_nan (sx : bool) (mx ex : Z) (lx : location) :
  (0 <= mx)%Z -> is_nan (binary_round_aux prec emax sx mx ex lx) = false.
Proof.
  intros H. unfold binary_round_aux.
  pose proof (shr_fexp_nonneg ex lx H) as H1.
  destruct (shr_fexp prec emax mx ex lx) as [mrs1 e1]. simpl in H1.
  pose proof (round_nearest_even_ge (shr_m mrs1) (loc_of_shr_record mrs1))
    as H2.
  assert (0 <= round_nearest_even (shr_m mrs1) (loc_of_shr_record mrs1))%Z
    as H3 by lia.
  pose proof (shr_fexp_nonneg e1 loc_Exact H3) as H4.
  destruct (shr_fexp prec emax _ e1 loc_Exact) as [mrs2 e2]. simpl in H4.
  destruct (shr_m mrs2); try lia; try reflexivity.
  destruct (e2 <=? emax - prec)%Z; reflexivity.
Qed.

Lemma binary_round_aux_pos (sx : bool) (mx ex : Z) (lx : location) :
  (0 < mx)%Z -> (emin prec emax <= ex)%Z ->
  rounded sx (binary_round_aux prec emax sx mx ex lx).
Proof.
  intros H He. unfold binary_round_aux.
  pose proof (shr_fexp_pos lx H He) as [H1 E1].
  destruct (shr_fexp prec emax mx ex lx) as [mrs1 e1].
  simpl in H1, E1.
  pose proof (round_nearest_even_ge (shr_m mrs1) (loc_of_shr_record mrs1))
    as H2.
  assert (0 < round_nearest_even (shr_m mrs1) (loc_of_shr_record mrs1))%Z
    as H3 by lia.
  pose proof (shr_fexp_pos loc_Exact H3 E1) as [H4 E2].
  destruct (shr_fexp prec emax _ e1 loc_Exact) as [mrs2 e2].
  simpl in H4, E2.
  destruct (shr_m mrs2); try lia.
  destruct (e2 <=? emax - prec)%Z; simpl; auto.
Qed.

Lemma binary_round_pos (sx : bool) (mx : positive) (ex : Z) :
  (emin prec emax <= ex)%Z ->
  rounded sx (binary_round prec emax sx mx ex).
Proof.
  intros He. unfold binary_round, shl_align.
  destruct (fexp prec emax (Zpos (digits2_pos mx) + ex) - ex)%Z eqn:E;
    apply binary_round_aux_pos; try lia.
  unfold fexp, emin, prec, emax in *. lia.
Qed.


Lemma rounded_summable (sx : bool) (x : float) : rounded sx x -> summable x.
Proof.
  destruct x as [| | |s m e]; simpl; try contradiction; intros H;
    repeat split; try discriminate; simpl; tauto.
Qed.

Lemma valid_above_emin (x : float) :
  valid_binary prec emax x = true -> above_emin x.
Proof.
  destruct x as [| | |s m e]; simpl; auto.
  unfold bounded, canonical_mantissa. intros H.
  apply andb_prop in H. destruct H as [H _]. apply Z.eqb_eq in H.
  unfold fexp, emin, prec, emax in *. lia.
Qed.

(** Adding a finite number to a running sum. *)
Lemma add_summable (acc v : float) :
  summable acc -> is_nan v = false -> is_inf v = false -> above_emin v ->
  summable (add acc v).
Proof.
  intros (N & Z0 & A) Nv Iv Av.
  destruct acc as [[]|sa| |sa ma ea]; try discriminate; try congruence;
    destruct v as [[]|sv| |sv mv ev]; try discriminate;
    try (repeat split; simpl; auto; discriminate).
  simpl in A, Av. unfold add, SFadd, binary_normalize.
  destruct (cond_Zopp sa (Z.pos (fst (shl_align ma ea (Z.min ea ev)))) +
            cond_Zopp sv (Z.pos (fst (shl_align mv ev (Z.min ea ev)))))%Z.
  - repeat split; simpl; auto; discriminate.
  - eapply rounded_summable, binary_round_pos. lia.
  - eapply rounded_summable, binary_round_pos. lia.
Qed.

Lemma add_zero_l (s : float) :
  is_nan s = false -> s <> S754_zero true -> add zero s = s.
Proof.
  destruct s as [[]| | |]; simpl; intros N Z0;
    try discriminate; try congruence; reflexivity.
Qed.

(** *** Division *)

Lemma div_zero_r (p c : float) :
  is_zero c = true ->
  div p c = (if is_nan p || is_zero p then S754_nan
             else match p, c with
                  | S754_infinity sp, S754_zero sc
                  | S754_finite sp _ _, S754_zero sc =>
                      S754_infinity (xorb sp sc)
                  | _, _ => S754_nan
                  end).
Proof.
  destruct c; try discriminate. intros _.
  destruct p; reflexivity.
Qed.

Lemma div_finite_not_nan (sp : bool) (mp : positive) (ep : Z)
      (sc : bool) (mc : positive) (ec : Z) :
  is_nan (div (S754_finite sp mp ep) (S754_finite sc mc ec)) = false.
Proof.
  unfold div, SFdiv.
  destruct (SFdiv_core_binary prec emax (Z.pos mp) ep (Z.pos mc) ec)
    as [[mz ez] lz] eqn:E.
  apply binary_round_aux_not_nan.
  unfold SFdiv_core_binary in E.
  set (m' := match _ with Z0 => _ | Zpos _ => _ | Zneg _ => _ end) in E.
  assert (0 <= m')%Z as Hm.
  { subst m'. destruct (_ - _ - _)%Z; try lia.
    apply Z.shiftl_nonneg. lia. }
  pose proof (Z.div_pos m' (Z.pos mc) Hm ltac:(lia)) as Hq.
  unfold Z.div in Hq.
  destruct (Z.div_eucl m' (Z.pos mc)) as [q r].
  inversion E; subst. exact Hq.
Qed.

(** When a quotient is missing. *)
Lemma div_nan_iff (p c : float) :
  is_nan (div p c) =
  is_nan p || is_nan c || (is_zero p && is_zero c) || (is_inf p && is_inf c).
Proof.
  destruct p as [sp|sp| |sp mp ep], c as [sc|sc| |sc mc ec];
    try reflexivity.
  apply div_finite_not_nan.
Qed.

End F64Facts.

(* ================================================================== *)
(** * The build: cleaning, and what raises *)
(* ================================================================== *)

Lemma mapM_Ok_Forall {A B : Type} (f : A -> result B) (l : list A) :
  (exists bs, mapM f l = Ok bs) <-> Forall (fun a => exists b, f a = Ok b) l.
Proof.
  induction l as [|a l IH]; simpl.
  - split; [constructor | now exists []].
  - split.
    + intros [bs H]. destruct (f a) as [b|e] eqn:Fa; simpl in H; [|discriminate].
      constructor; [now exists b|].
      apply IH. destruct (mapM f l) as [bs'|e]; simpl in H; [|discriminate].
      now exists bs'.
    + intros H. inversion H as [|? ? [b Fa] Hl]; subst.
      apply IH in Hl. destruct Hl as [bs Hbs].
      exists (b :: bs). now rewrite Fa, Hbs.
Qed.

Lemma clean_trade_Ok (r : RawTrade) :
  (exists d, clean_trade r = Ok d)
  <-> (exists z, clean_numeric (raw_Area_Code r) = Ok z).
Proof.
  unfold clean_trade.
  destruct (clean_numeric (raw_Area_Code r)) as [z|e]; simpl; split;
    intros [x H]; try discriminate; eauto.
Qed.

Lemma clean_ref_Ok (r : RawRef) :
  (exists d, clean_ref r = Ok d)
  <-> (exists z, clean_numeric (raw_Numeric_code r) = Ok z).
Proof.
  unfold clean_ref.
  destruct (clean_numeric (raw_Numeric_code r)) as [z|e]; simpl; split;
    intros [x H]; try discriminate; eauto.
Qed.

Lemma Forall_iff {A : Type} (P Q : A -> Prop) (l : list A) :
  (forall a, P a <-> Q a) -> Forall P l <-> Forall Q l.
Proof.
  intros H. split; intros F; eapply Forall_impl; try exact F;
    intros a; apply H.
Qed.

(** A finished table is the tail of the script run on some merged frame. *)
Lemma build_Ok_finish (classify : Z -> string)
      (data_raw : list RawTrade) (ref_raw : list RawRef) (t : list Canon) :
  build classify data_raw ref_raw = Ok t ->
  exists merged, t = finish classify merged.
Proof.
  unfold build.
  destruct (mapM clean_trade data_raw) as [data|e]; simpl; [|discriminate].
  destruct (mapM clean_ref ref_raw) as [ref_table|e]; simpl; [|discriminate].
  intros H. inversion H. eauto.
Qed.

Lemma in_finish_derive (classify : Z -> string) (merged : list Merged)
      (r : Canon) :
  In r (finish classify merged) ->
  exists a, In a (aggregate (classify_rows classify merged)) /\ r = derive a.
Proof.
  unfold finish. intros H. apply in_map_iff in H.
  destruct H as (a & <- & Ha). eauto.
Qed.

(** ** C8 *)



(* ================================================================== *)
(** * Derived metrics *)
(* ================================================================== *)

(** ** C1 *)

(** C1, as stated, fails: a row with production 5 and consumption 0 has
    the ratio +inf, which is a number to pandas and not the missing
    value; so the ratio is not undefined whenever consumption is 0. *)
Lemma ratio_infinite_at_zero_consumption :
  build classify_demo raw_zero_consumption ref_demo = Ok [row_zero_consumption]
  /\ F64.is_zero (Consumption (base row_zero_consumption)) = true
  /\ Self_Sufficiency_Ratio row_zero_consumption = F64.pinf
  /\ ~ (forall r, In r [row_zero_consumption] ->
          (F64.is_nan (Self_Sufficiency_Ratio r) = true
           <-> F64.is_zero (Consumption (base r)) = true)).
Proof.
  split; [reflexivity|]. split; [reflexivity|]. split; [reflexivity|].
  intros H. specialize (H row_zero_consumption (or_introl eq_refl)).
  destruct H as [_ H]. specialize (H eq_refl). discriminate.
Qed.

(** C1, amended: for every row of the canonical table the ratio is the
    float64 quotient production / consumption, obtained without raising.
    It is the missing value NaN exactly when production or consumption
    is NaN, both are zero, or both are infinite.  When consumption is 0
    it is NaN if production is 0 (or NaN) and an infinity otherwise, and
    it is never zero. *)
Theorem ratio_is_float_quotient (classify : Z -> string)
        (data_raw : list RawTrade) (ref_raw : list RawRef)
        (t : list Canon) (r : Canon) :
  build classify data_raw ref_raw = Ok t ->
  In r t ->
  let p := Production (base r) in
  let c := Consumption (base r) in
  let q := Self_Sufficiency_Ratio r in
  q = F64.div p c
  /\ F64.is_nan q
     = (F64.is_nan p || F64.is_nan c
        || (F64.is_zero p && F64.is_zero c)
        || (F64.is_inf p && F64.is_inf c))
  /\ (F64.is_zero c = true ->
      F64.is_zero q = false
      /\ (F64.is_nan q = true
          <-> F64.is_zero p = true \/ F64.is_nan p = true)
      /\ (F64.is_nan q = false -> F64.is_inf q = true)).
Proof.
  intros B I. apply build_Ok_finish in B. destruct B as [merged ->].
  apply in_finish_derive in I. destruct I as (a & _ & ->).
  simpl. split; [reflexivity|]. split; [apply F64Facts.div_nan_iff|].
  intros Hc. rewrite (F64Facts.div_zero_r _ _ Hc).
  destruct (Production a) as [sp|sp| |sp mp ep], (Consumption a);
    try discriminate; simpl; repeat split; auto; try discriminate;
    intros [H|H]; discriminate.
Qed.

Lemma ratio_is_float_quotient_witness :
  build classify_demo raw_zero_consumption ref_demo = Ok [row_zero_consumption]
  /\ In row_zero_consumption [row_zero_consumption]
  /\ Self_Sufficiency_Ratio row_zero_consumption
     = F64.div (Production (base row_zero_consumption)) (Consumption (base row_zero_consumption)).
Proof.
  assert (build classify_demo raw_zero_consumption ref_demo = Ok [row_zero_consumption]) as B
      by reflexivity.
  assert (In row_zero_consumption [row_zero_consumption]) as I by (simpl; auto).
  split; [exact B|]. split; [exact I|].
  exact (proj1 (@ratio_is_float_quotient _ _ _ _ _ B I)).
Defined.

(* ================================================================== *)
(** * Aggregation *)
(* ================================================================== *)

(** ** The order of the group labels *)

Lemma string_compare_refl (a : string) : String.compare a a = Eq.
Proof.
  induction a as [|x a IH]; simpl; auto.
  unfold Ascii.compare. now rewrite N.compare_refl.
Qed.

Lemma string_compare_lt_trans (a b c : string) :
  String.compare a b = Lt -> String.compare b c = Lt ->
  String.compare a c = Lt.
Proof.
  revert b c. induction a as [|x a IH]; intros [|y b] [|z c]; simpl;
    try discriminate; auto.
  unfold Ascii.compare.
  destruct (N.compare_spec (N_of_ascii x) (N_of_ascii y)) as [E1|L1|G1];
    destruct (N.compare_spec (N_of_ascii y) (N_of_ascii z)) as [E2|L2|G2];
    destruct (N.compare_spec (N_of_ascii x) (N_of_ascii z)) as [E3|L3|G3];
    try discriminate; try lia; auto.
  apply IH.
Qed.

Lemma key_compare_refl (a : key) : key_compare a a = Eq.
Proof.
  destruct a as [[[a1 a2] a3] a4]. unfold key_compare.
  now rewrite !string_compare_refl, Z.compare_refl.
Qed.

Lemma key_compare_eq (a b : key) : key_compare a b = Eq -> a = b.
Proof.
  destruct a as [[[a1 a2] a3] a4], b as [[[b1 b2] b3] b4].
  unfold key_compare, lex.
  destruct (String.compare a1 b1) eqn:E1; try discriminate.
  destruct (String.compare a2 b2) eqn:E2; try discriminate.
  destruct (String.compare a3 b3) eqn:E3; try discriminate.
  intros E4.
  apply String.compare_eq_iff in E1, E2, E3. apply Z.compare_eq in E4.
  now subst.
Qed.

Lemma key_compare_antisym (a b : key) :
  key_compare b a = CompOpp (key_compare a b).
Proof.
  destruct a as [[[a1 a2] a3] a4], b as [[[b1 b2] b3] b4].
  unfold key_compare, lex.
  rewrite (String.compare_antisym b1 a1), (String.compare_antisym b2 a2),
    (String.compare_antisym b3 a3), (Z.compare_antisym a4 b4).
  destruct (String.compare a1 b1), (String.compare a2 b2),
    (String.compare a3 b3); reflexivity.
Qed.

Lemma key_lt_trans (a b c : key) : key_lt a b -> key_lt b c -> key_lt a c.
Proof.
  destruct a as [[[a1 a2] a3] a4], b as [[[b1 b2] b3] b4],
           c as [[[c1 c2] c3] c4].
  unfold key_lt, key_compare, lex.
  destruct (String.compare a1 b1) eqn:A1; try discriminate;
    destruct (String.compare b1 c1) eqn:B1; try discriminate;
    try apply String.compare_eq_iff in A1;
    try apply String.compare_eq_iff in B1; subst;
    rewrite ?A1, ?B1, ?(string_compare_lt_trans _ _ _ A1 B1);
    try reflexivity.
  rewrite string_compare_refl.
  destruct (String.compare a2 b2) eqn:A2; try discriminate;
    destruct (String.compare b2 c2) eqn:B2; try discriminate;
    try apply String.compare_eq_iff in A2;
    try apply String.compare_eq_iff in B2; subst;
    rewrite ?A2, ?B2, ?(string_compare_lt_trans _ _ _ A2 B2);
    try reflexivity.
  rewrite string_compare_refl.
  destruct (String.compare a3 b3) eqn:A3; try discriminate;
    destruct (String.compare b3 c3) eqn:B3; try discriminate;
    try apply String.compare_eq_iff in A3;
    try apply String.compare_eq_iff in B3; subst;
    rewrite ?A3, ?B3, ?(string_compare_lt_trans _ _ _ A3 B3);
    try reflexivity.
  rewrite string_compare_refl.
  rewrite !Z.compare_lt_iff. lia.
Qed.

Lemma key_lt_irrefl (a : key) : ~ key_lt a a.
Proof. unfold key_lt. rewrite key_compare_refl. discriminate. Qed.

Lemma key_eqb_eq (a b : key) : key_eqb a b = true <-> a = b.
Proof.
  unfold key_eqb. split.
  - destruct (key_compare a b) eqn:E; try discriminate.
    intros _. now apply key_compare_eq.
  - intros ->. now rewrite key_compare_refl.
Qed.

(** ** The labels of the groups *)

Lemma in_insert_key (x k : key) (l : list key) :
  In x (insert_key k l) <-> x = k \/ In x l.
Proof.
  induction l as [|h t IH]; simpl.
  - intuition.
  - destruct (key_compare k h) eqn:E; simpl.
    + apply key_compare_eq in E. subst. intuition.
    + intuition.
    + rewrite IH. intuition.
Qed.

Lemma in_group_keys (k : key) (rows : list Row) :
  In k (group_keys rows) <-> In k (keys_of rows).
Proof.
  unfold group_keys. induction (keys_of rows) as [|h t IH]; simpl.
  - tauto.
  - rewrite in_insert_key, IH. intuition.
Qed.

Lemma in_keys_of (k : key) (rows : list Row) :
  In k (keys_of rows) <-> exists r, In r rows /\ row_key r = Some k.
Proof.
  induction rows as [|r rows IH]; simpl.
  - split; [tauto | intros (r & [] & _)].
  - destruct (row_key r) as [k'|] eqn:E; simpl; rewrite ?IH; split.
    + intros [->|(r' & I & K)]; eauto.
    + intros (r' & [->|I] & K); [left; congruence | eauto].
    + intros (r' & I & K); eauto.
    + intros (r' & [->|I] & K); [congruence | eauto].
Qed.

Lemma insert_key_sorted (k : key) (l : list key) :
  Sorted key_lt l -> Sorted key_lt (insert_key k l).
Proof.
  induction l as [|h t IH]; simpl; intros S.
  - repeat constructor.
  - inversion S as [|? ? St Hd]; subst.
    destruct (key_compare k h) eqn:E.
    + exact S.
    + constructor; auto.
    + constructor; auto.
      assert (key_lt h k) as Hhk
          by (unfold key_lt; rewrite key_compare_antisym, E; reflexivity).
      destruct t as [|h' t']; simpl.
      * repeat constructor. exact Hhk.
      * inversion Hd; subst.
        destruct (key_compare k h'); constructor; auto.
Qed.

Lemma group_keys_sorted (rows : list Row) : Sorted key_lt (group_keys rows).
Proof.
  unfold group_keys. induction (keys_of rows) as [|h t IH]; simpl.
  - constructor.
  - now apply insert_key_sorted.
Qed.

Lemma sorted_keys_NoDup (l : list key) : Sorted key_lt l -> NoDup l.
Proof.
  intros S. apply Sorted_StronglySorted in S;
    [|intros a b c; apply key_lt_trans].
  induction S as [|a l S IH F]; constructor; auto.
  intros I. rewrite Forall_forall in F.
  exact (key_lt_irrefl (F a I)).
Qed.

Lemma group_keys_NoDup (rows : list Row) : NoDup (group_keys rows).
Proof. apply sorted_keys_NoDup, group_keys_sorted. Qed.

(** Sorting labels that are already in order changes nothing. *)
Lemma insert_sorted_keys (l : list key) :
  Sorted key_lt l -> fold_right insert_key [] l = l.
Proof.
  induction l as [|k t IH]; simpl; intros S; auto.
  inversion S as [|? ? St Hd]; subst. rewrite IH by assumption.
  destruct t as [|h t']; simpl; auto.
  inversion Hd as [|? ? L]; subst. unfold key_lt in L. now rewrite L.
Qed.

(** ** The rows of the aggregate *)

Lemma row_key_group_sum (rows : list Row) (k : key) :
  row_key (group_sum rows k) = Some k.
Proof. destruct k as [[[a c] i] y]. reflexivity. Qed.

Lemma in_aggregate (rows : list Row) (o : Row) :
  In o (aggregate rows)
  <-> exists k, In k (group_keys rows) /\ o = group_sum rows k.
Proof.
  unfold aggregate. rewrite in_map_iff. split; intros (k & H1 & H2).
  - subst. eauto.
  - subst. eauto.
Qed.

Lemma keys_of_map_group_sum (rows : list Row) (ks : list key) :
  keys_of (map (group_sum rows) ks) = ks.
Proof.
  induction ks as [|k ks IH]; simpl; auto.
  now rewrite row_key_group_sum, IH.
Qed.

Lemma group_keys_aggregate (rows : list Row) :
  group_keys (aggregate rows) = group_keys rows.
Proof.
  unfold group_keys at 1, aggregate. rewrite keys_of_map_group_sum.
  apply insert_sorted_keys, group_keys_sorted.
Qed.

Lemma group_rows_map_group_sum (rows : list Row) (k : key) (ks : list key) :
  NoDup ks -> In k ks ->
  group_rows k (map (group_sum rows) ks) = [group_sum rows k].
Proof.
  unfold group_rows. induction ks as [|h ks IH]; simpl; [tauto|].
  intros N I. inversion N as [|? ? Nh Nks]; subst.
  rewrite row_key_group_sum.
  destruct (key_eqb h k) eqn:E.
  - apply key_eqb_eq in E. subst h. f_equal.
    clear IH I N. induction ks as [|h' ks IH]; simpl; auto.
    rewrite row_key_group_sum.
    destruct (key_eqb h' k) eqn:E'.
    + apply key_eqb_eq in E'. subst. exfalso. apply Nh. now left.
    + apply IH.
      * intros I. apply Nh. now right.
      * now inversion Nks.
  - destruct I as [->|I].
    + rewrite (proj2 (key_eqb_eq k k) eq_refl) in E. discriminate.
    + now apply IH.
Qed.

Lemma in_group_rows (k : key) (rows : list Row) (r : Row) :
  In r (group_rows k rows) <-> In r rows /\ row_key r = Some k.
Proof.
  unfold group_rows. rewrite filter_In.
  destruct (row_key r) as [k'|]; split; intros [I H]; split; auto;
    try discriminate.
  - f_equal. now apply key_eqb_eq.
  - apply key_eqb_eq. congruence.
Qed.

Lemma NoDup_map_Some {A : Type} (l : list A) :
  NoDup l -> NoDup (map Some l).
Proof.
  induction 1 as [|a l N _ IH]; simpl; constructor; auto.
  intros I. apply in_map_iff in I. destruct I as (b & E & I).
  inversion E. now subst.
Qed.

(** ** C5 *)

(** C5: the aggregate has one row per group label (Area, Continent,
    ISO-3, Year), so the label is unique across the table; every label
    of the input is there; a group is the set of input rows with that
    label and each of the four metrics of its row is the sum over the
    group; and two Testland rows of year 2000 with imports 10 and 5
    become one row with import 15. *)
Theorem aggregate_sums_groups (rows : list Row) :
  NoDup (map row_key (aggregate rows))
  /\ (forall r k, In r rows -> row_key r = Some k ->
      exists o, In o (aggregate rows) /\ row_key o = Some k)
  /\ (forall o, In o (aggregate rows) ->
      exists k,
        row_key o = Some k
        /\ (forall r, In r (group_rows k rows)
                      <-> In r rows /\ row_key r = Some k)
        /\ group_rows k rows <> []
        /\ Import o = sum (map Import (group_rows k rows))
        /\ Export o = sum (map Export (group_rows k rows))
        /\ Production o = sum (map Production (group_rows k rows))
        /\ Consumption o = sum (map Consumption (group_rows k rows)))
  /\ aggregate [testland (F64.of_Z 10); testland (F64.of_Z 5)]
     = [testland (F64.of_Z 15)].
Proof.
  split; [|split; [|split]].
  - unfold aggregate. rewrite map_map.
    rewrite (map_ext _ Some (row_key_group_sum rows)).
    apply NoDup_map_Some, group_keys_NoDup.
  - intros r k I K. exists (group_sum rows k). split.
    + apply in_aggregate. exists k. split; auto.
      apply in_group_keys, in_keys_of. eauto.
    + apply row_key_group_sum.
  - intros o I. apply in_aggregate in I. destruct I as (k & Hk & ->).
    exists k. split; [apply row_key_group_sum|].
    split; [intros r; apply in_group_rows|]. split.
    + apply in_group_keys, in_keys_of in Hk. destruct Hk as (r & I & K).
      intros E. assert (In r (group_rows k rows)) as G
          by (apply in_group_rows; auto).
      rewrite E in G. exact G.
    + destruct k as [[[a c] i] y]. simpl. auto.
  - reflexivity.
Qed.

(** ** Sums of regular cells *)

Lemma zero_summable : F64.summable F64.zero.
Proof. repeat split; simpl; auto; discriminate. Qed.

Lemma fold_sum_summable (l : list float) :
  Forall (fun v => F64.regular v = true) l ->
  forall acc, F64.summable acc ->
    F64.summable
      (fold_left (fun acc v => if F64.is_nan v then acc else F64.add acc v)
                 l acc).
Proof.
  induction 1 as [|v l R _ IH]; simpl; intros acc S; auto.
  apply IH. destruct (F64.is_nan v) eqn:N; auto.
  unfold F64.regular in R. apply andb_prop in R. destruct R as [V I].
  apply F64Facts.add_summable; auto.
  - now destruct (F64.is_inf v).
  - now apply F64Facts.valid_above_emin.
Qed.

Lemma sum_summable (l : list float) :
  Forall (fun v => F64.regular v = true) l -> F64.summable (sum l).
Proof. intros H. apply fold_sum_summable; auto. apply zero_summable. Qed.

Lemma sum_singleton (s : float) : F64.summable s -> sum [s] = s.
Proof.
  intros (N & Z0 & _). unfold sum. simpl. rewrite N.
  now apply F64Facts.add_zero_l.
Qed.

Lemma regular_group (rows : list Row) (k : key) (f : Row -> float) :
  Forall regular_row rows ->
  (forall r, regular_row r -> F64.regular (f r) = true) ->
  Forall (fun v => F64.regular v = true) (map f (group_rows k rows)).
Proof.
  intros R H. apply Forall_map. apply Forall_forall. intros r I.
  apply H. rewrite Forall_forall in R. apply R.
  now apply in_group_rows in I.
Qed.

(** ** C9 *)




(* ================================================================== *)
(** * Join and classification *)
(* ================================================================== *)

Lemma flat_map_filter {A B : Type} (f : A -> list B) (p : A -> bool)
      (l : list A) :
  (forall a, p a = false -> f a = []) ->
  flat_map f (filter p l) = flat_map f l.
Proof.
  intros H. induction l as [|a l IH]; simpl; auto.
  destruct (p a) eqn:E; simpl; rewrite IH; auto.
  now rewrite (H a E).
Qed.

Lemma filter_filter_imp {A : Type} (p q : A -> bool) (l : list A) :
  (forall a, q a = true -> p a = true) ->
  filter q (filter p l) = filter q l.
Proof.
  intros H. induction l as [|a l IH]; simpl; auto.
  destruct (p a) eqn:P; simpl; rewrite IH; auto.
  destruct (q a) eqn:Q; auto. rewrite (H a Q) in P. discriminate.
Qed.

Lemma keys_of_filter (p : Row -> bool) (rows : list Row) :
  (forall r, p r = false -> row_key r = None) ->
  keys_of (filter p rows) = keys_of rows.
Proof.
  intros H. induction rows as [|r rows IH]; simpl; auto.
  destruct (p r) eqn:P; simpl; rewrite IH; auto.
  now rewrite (H r P).
Qed.

(** The aggregate depends on the rows only through the labelled ones. *)
Lemma aggregate_filter (p : Row -> bool) (rows : list Row) :
  (forall r, p r = false -> row_key r = None) ->
  aggregate (filter p rows) = aggregate rows.
Proof.
  intros H. unfold aggregate, group_keys. rewrite keys_of_filter by exact H.
  apply map_ext. intros [[[a c] i] y]. unfold group_sum, group_rows.
  rewrite filter_filter_imp; auto.
  intros r. destruct (p r) eqn:P; auto. now rewrite (H r P).
Qed.

Lemma in_classify_rows (classify : Z -> string) (merged : list Merged)
      (r : Row) :
  In r (classify_rows classify merged) ->
  exists m, In m merged
            /\ Continent r = Some (classify (t_Area_Code (m_trade m)))
            /\ classify (t_Area_Code (m_trade m)) <> not_found
            /\ ISO_3 r = m_Alpha_3_code m.
Proof.
  unfold classify_rows. rewrite in_flat_map. intros (m & I & H).
  exists m. split; auto. unfold convert in H.
  destruct (String.eqb_spec (classify (t_Area_Code (m_trade m))) not_found)
    as [E|E]; simpl in H; [contradiction|].
  destruct H as [<-|[]]. simpl. auto.
Qed.

Lemma classify_rows_filter_matched (classify : Z -> string)
      (merged : list Merged) :
  classify_rows classify (filter matched merged)
  = filter (fun r => match ISO_3 r with Some _ => true | None => false end)
           (classify_rows classify merged).
Proof.
  induction merged as [|m merged IH]; simpl; auto.
  unfold matched at 1.
  destruct (m_Alpha_3_code m) as [i|] eqn:E; simpl;
    destruct (convert classify m); simpl; rewrite ?E; rewrite IH; auto.
Qed.

(** A row of the aggregate carries the keys of one of the input rows. *)
Lemma aggregate_keys_from_rows (rows : list Row) (o : Row) :
  In o (aggregate rows) ->
  exists r c i,
    In r rows
    /\ Continent r = Some c /\ Continent o = Some c
    /\ ISO_3 r = Some i /\ ISO_3 o = Some i.
Proof.
  intros I. apply in_aggregate in I. destruct I as (k & Hk & ->).
  apply in_group_keys, in_keys_of in Hk. destruct Hk as (r & I & K).
  destruct k as [[[a c] i] y]. exists r, c, i. unfold row_key in K.
  destruct (Continent r), (ISO_3 r); try discriminate.
  inversion K; subst. simpl. auto.
Qed.

Lemma in_merge (data : list Trade) (ref_table : list Ref) (d : Trade) :
  In d data ->
  match matches d ref_table with
  | [] => In (unmatched_row d) (merge data ref_table)
  | r :: _ =>
      In {| m_trade := d;
            m_Numeric_code := Some (ref_Numeric_code r);
            m_Alpha_3_code := Some (ref_Alpha_3_code r) |}
         (merge data ref_table)
  end.
Proof.
  intros I. unfold merge.
  destruct (matches d ref_table) as [|r ms] eqn:E;
    apply in_flat_map; exists d; rewrite E; simpl; auto.
Qed.

(** ** C7 *)



(** ** C6 *)

(** C6: when the converter keeps its contract, the continent of every
    row of the canonical table is one of the five recognized values,
    never missing; and the merged rows the converter does not resolve
    are left out altogether, the table being the one built from the
    resolved rows alone. *)
Theorem continent_recognized (classify : Z -> string)
        (data_raw : list RawTrade) (ref_raw : list RawRef) (t : list Canon) :
  classifier_contract classify ->
  build classify data_raw ref_raw = Ok t ->
  (forall r, In r t ->
     exists c, Continent (base r) = Some c /\ In c continents)
  /\ (forall merged,
        finish classify merged
        = finish classify (filter (resolved classify) merged)).
Proof.
  intros classify_contract B. split.
  - apply build_Ok_finish in B. destruct B as [merged ->].
    intros r I. apply in_finish_derive in I. destruct I as (a & Ha & ->).
    apply aggregate_keys_from_rows in Ha.
    destruct Ha as (r & c & i & I & Cr & Co & _). exists c. split; auto.
    apply in_classify_rows in I. destruct I as (m & _ & Cm & N & _).
    rewrite Cr in Cm. inversion Cm; subst.
    destruct (classify_contract (t_Area_Code (m_trade m))); tauto.
  - intros merged. unfold finish, classify_rows.
    rewrite flat_map_filter; auto.
    intros m H. unfold resolved in H. unfold convert.
    now destruct (String.eqb (classify (t_Area_Code (m_trade m))) not_found).
Qed.

Lemma classify_demo_contract : classifier_contract classify_demo.
Proof.
  intros code. unfold classify_demo.
  repeat match goal with
         | |- context [Z.eqb ?a ?b] => destruct (Z.eqb a b)
         end; simpl; auto 10.
Qed.

Lemma continent_recognized_witness :
  classifier_contract classify_demo
  /\ (exists t,
        build classify_demo raw_unresolved ref_demo = Ok t
        /\ forall r, In r t ->
             exists c, Continent (base r) = Some c /\ In c continents).
Proof.
  split; [exact classify_demo_contract|].
  destruct (build classify_demo raw_unresolved ref_demo) as [t|e] eqn:B;
    [|vm_compute in B; discriminate].
  exists t. split; [reflexivity|].
  exact (proj1 (@continent_recognized classify_demo raw_unresolved ref_demo t
                  classify_demo_contract B)).
Defined.

(* ================================================================== *)
(** * World rank *)
(* ================================================================== *)

(** ** Ranking one group *)

Lemma in_insert_desc (x v : float) (l : list float) :
  In x (insert_desc v l) <-> x = v \/ In x l.
Proof.
  induction l as [|h t IH]; simpl; [intuition|].
  destruct (F64.leb h v); simpl; rewrite ?IH; intuition.
Qed.

Lemma in_sort_desc (x : float) (l : list float) :
  In x (sort_desc l) <-> In x l.
Proof.
  induction l as [|h t IH]; simpl; [tauto|].
  rewrite in_insert_desc, IH. intuition.
Qed.

Lemma count_insert_desc (f : float -> bool) (v : float) (l : list float) :
  List.length (filter f (insert_desc v l))
  = List.length (filter f (v :: l)).
Proof.
  induction l as [|h t IH]; simpl; auto.
  destruct (F64.leb h v); simpl; auto.
  simpl in IH. destruct (f h), (f v); simpl in *; rewrite IH; auto.
Qed.

Lemma count_sort_desc (f : float -> bool) (l : list float) :
  List.length (filter f (sort_desc l)) = List.length (filter f l).
Proof.
  induction l as [|h t IH]; simpl; auto.
  rewrite count_insert_desc. simpl. destruct (f h); simpl; auto.
Qed.

Lemma insert_desc_sorted (v : float) (l : list float) :
  F64.is_nan v = false ->
  Forall (fun x => F64.is_nan x = false) l ->
  StronglySorted desc l -> StronglySorted desc (insert_desc v l).
Proof.
  intros Nv. induction l as [|h t IH]; simpl; intros N S.
  - repeat constructor.
  - inversion N as [|? ? Nh Nt]; subst.
    inversion S as [|? ? St F]; subst.
    destruct (F64.leb h v) eqn:E.
    + constructor; [exact S|]. constructor; [exact E|].
      rewrite Forall_forall in *. intros x I. unfold desc.
      apply (@F64Facts.leb_trans x h v); auto. now apply F.
    + constructor; [now apply IH|].
      rewrite Forall_forall in *. intros x I.
      apply in_insert_desc in I. destruct I as [->|I]; [|now apply F].
      unfold desc. now apply F64Facts.leb_total.
Qed.

Lemma sort_desc_sorted (l : list float) :
  Forall (fun x => F64.is_nan x = false) l ->
  StronglySorted desc (sort_desc l).
Proof.
  induction 1 as [|h t Nh Nt IH]; simpl; [constructor|].
  apply insert_desc_sorted; auto.
  rewrite Forall_forall in *. intros x I. apply Nt.
  now apply in_sort_desc.
Qed.

Lemma filter_none {A : Type} (f : A -> bool) (l : list A) :
  (forall x, In x l -> f x = false) -> filter f l = [].
Proof.
  induction l as [|a l IH]; simpl; intros H; auto.
  rewrite (H a (or_introl eq_refl)). apply IH. intros x I. apply H. now right.
Qed.

(** In a descending list without NaN, a member stands first among its
    ties right after the values strictly above it. *)
Lemma first_index_sorted (v : float) (s : list float) :
  F64.is_nan v = false ->
  Forall (fun x => F64.is_nan x = false) s ->
  StronglySorted desc s ->
  In v s ->
  first_index v s = List.length (filter (F64.ltb v) s).
Proof.
  intros Nv N S. induction S as [|h t St IH F]; intros I; [destruct I|].
  inversion N as [|? ? Nh Nt]; subst. simpl.
  rewrite Forall_forall in F, Nt.
  destruct (F64.eqb h v) eqn:E.
  - assert (F64.ltb v h = false) as L.
    { apply (@F64Facts.ltb_false_of_leb v h h); auto.
      unfold F64.leb, SFleb. rewrite F64Facts.compare_ord by auto.
      now rewrite F64Facts.ord_compare_refl. }
    rewrite L. symmetry.
    rewrite filter_none; auto.
    intros x Ix. apply (@F64Facts.ltb_false_of_leb v h x); auto.
    now apply F.
  - destruct I as [->|I];
      [rewrite F64Facts.eqb_refl in E by assumption; discriminate|].
    rewrite (@F64Facts.ltb_of_leb_neq v h); auto.
    + simpl. f_equal. apply IH; auto. now apply Forall_forall.
    + now apply F.
Qed.

Lemma rank_min_count (vals : list float) (v : float) :
  In v vals ->
  rank_min vals v
  = if F64.is_nan v then None
    else Some (S (List.length (filter (F64.ltb v) vals))).
Proof.
  intros I. unfold rank_min. destruct (F64.is_nan v) eqn:Nv; auto.
  do 2 f_equal.
  set (l := filter (fun x => negb (F64.is_nan x)) vals).
  assert (Forall (fun x => F64.is_nan x = false) l) as Nl.
  { apply Forall_forall. intros x Hx. apply filter_In in Hx.
    destruct Hx as [_ Hx]. now destruct (F64.is_nan x). }
  rewrite first_index_sorted; auto.
  - rewrite count_sort_desc. subst l. f_equal.
    apply filter_filter_imp. intros x Hx.
    destruct (F64.is_nan x) eqn:Nx; auto.
    rewrite F64Facts.ltb_nan_r in Hx; auto.
  - apply Forall_forall. intros x Hx. rewrite Forall_forall in Nl.
    apply Nl. now apply in_sort_desc.
  - now apply sort_desc_sorted.
  - apply in_sort_desc. subst l. apply filter_In. split; auto.
    now rewrite Nv.
Qed.

(** ** Splitting by year and putting the ranks back *)

Lemma lookup_app {B : Type} (i : nat) (l1 l2 : list (nat * B)) :
  lookup i (l1 ++ l2)
  = match lookup i l1 with
    | Some x => Some x
    | None => lookup i l2
    end.
Proof.
  induction l1 as [|[j r] l1 IH]; simpl; auto.
  destruct (Nat.eqb i j); auto.
Qed.

Lemma lookup_filter_none {A B : Type} (F : A -> B) (p : nat * A -> bool)
      (L : list (nat * A)) (i : nat) (r : A) :
  (forall r', In (i, r') L -> r' = r) ->
  p (i, r) = false ->
  lookup i (map (fun ir => (fst ir, F (snd ir))) (filter p L)) = None.
Proof.
  intros Fn P. induction L as [|[j r'] L IH]; simpl; auto.
  assert (forall r'', In (i, r'') L -> r'' = r) as Fn'
      by (intros r'' I; apply Fn; now right).
  destruct (p (j, r')) eqn:Pj; simpl; auto.
  destruct (Nat.eqb_spec i j) as [->|Ne]; auto.
  rewrite (Fn r' (or_introl eq_refl)) in Pj. congruence.
Qed.

Lemma lookup_filter_some {A B : Type} (F : A -> B) (p : nat * A -> bool)
      (L : list (nat * A)) (i : nat) (r : A) :
  (forall r', In (i, r') L -> r' = r) ->
  In (i, r) L ->
  p (i, r) = true ->
  lookup i (map (fun ir => (fst ir, F (snd ir))) (filter p L)) = Some (F r).
Proof.
  intros Fn I P. induction L as [|[j r'] L IH]; simpl; [destruct I|].
  assert (forall r'', In (i, r'') L -> r'' = r) as Fn'
      by (intros r'' I'; apply Fn; now right).
  destruct (Nat.eqb_spec i j) as [->|Ne].
  - rewrite (Fn r' (or_introl eq_refl)), P. simpl.
    now rewrite Nat.eqb_refl.
  - destruct I as [E|I]; [inversion E; congruence|].
    destruct (p (j, r')); simpl; auto.
    destruct (Nat.eqb_spec i j); [contradiction|]. auto.
Qed.

Lemma map_fst_combine {A B : Type} (a : list A) (b : list B) :
  List.length a = List.length b -> map fst (combine a b) = a.
Proof.
  revert b. induction a as [|x a IH]; intros [|y b]; simpl; intros H;
    try discriminate; auto.
  f_equal. apply IH. now inversion H.
Qed.

Lemma map_snd_combine {A B : Type} (a : list A) (b : list B) :
  List.length a = List.length b -> map snd (combine a b) = b.
Proof.
  revert b. induction a as [|x a IH]; intros [|y b]; simpl; intros H;
    try discriminate; auto.
  f_equal. apply IH. now inversion H.
Qed.

Lemma indexed_fst {A : Type} (l : list A) :
  map fst (indexed l) = seq 0 (List.length l).
Proof. apply map_fst_combine. apply length_seq. Qed.

Lemma indexed_snd {A : Type} (l : list A) : map snd (indexed l) = l.
Proof. apply map_snd_combine. apply length_seq. Qed.

Lemma filter_snd_combine {A B : Type} (p : B -> bool) (a : list A)
      (b : list B) :
  List.length a = List.length b ->
  map snd (filter (fun ab => p (snd ab)) (combine a b)) = filter p b.
Proof.
  revert b. induction a as [|x a IH]; intros [|y b]; simpl; intros H;
    try discriminate; auto.
  destruct (p y); simpl; rewrite IH; auto.
Qed.

Lemma NoDup_fst_functional {A : Type} (L : list (nat * A)) (i : nat)
      (r r' : A) :
  NoDup (map fst L) -> In (i, r) L -> In (i, r') L -> r' = r.
Proof.
  induction L as [|[j x] L IH]; simpl; intros N I I'; [destruct I|].
  inversion N as [|? ? Nj NL]; subst.
  destruct I as [E|I], I' as [E'|I'].
  - congruence.
  - inversion E; subst. exfalso. apply Nj.
    apply in_map_iff. now exists (i, r').
  - inversion E'; subst. exfalso. apply Nj.
    apply in_map_iff. now exists (i, r).
  - now apply IH.
Qed.

Lemma indexed_functional {A : Type} (l : list A) (i : nat) (r r' : A) :
  In (i, r) (indexed l) -> In (i, r') (indexed l) -> r' = r.
Proof.
  apply NoDup_fst_functional. rewrite indexed_fst. apply seq_NoDup.
Qed.

Lemma count_filter_map {A B : Type} (f : B -> bool) (g : A -> B)
      (l : list A) :
  List.length (filter f (map g l))
  = List.length (filter (fun a => f (g a)) l).
Proof.
  induction l as [|a l IH]; simpl; auto.
  destruct (f (g a)); simpl; auto.
Qed.

(** The values of one group are the metric column of the year slice. *)
Lemma group_values (m : metric) (y : Z) (data : list Canon) :
  map snd (group_of_year m y data) = map (column m) (year_slice y data).
Proof.
  unfold group_of_year, year_slice, indexed. rewrite map_map. simpl.
  rewrite <- (filter_snd_combine (fun r => Z.eqb (Year (base r)) y)
                (seq 0 (List.length data)) data) by apply length_seq.
  now rewrite map_map.
Qed.

Lemma lookup_ranked (m : metric) (data : list Canon) (i : nat) (r : Canon)
      (ys : list Z) :
  In (i, r) (indexed data) ->
  lookup i (flat_map (fun y => rank_group (group_of_year m y data)) ys)
  = if existsb (Z.eqb (Year (base r))) ys
    then Some (rank_min (map (column m) (year_slice (Year (base r)) data))
                        (column m r))
    else None.
Proof.
  intros I. induction ys as [|y ys IH]; simpl; auto.
  rewrite lookup_app, IH.
  unfold rank_group at 1. rewrite group_values.
  unfold group_of_year. rewrite map_map. simpl.
  destruct (Z.eqb_spec (Year (base r)) y) as [E|Ne]; [subst y|]; simpl.
  - set (y := Year (base r)).
    rewrite (@lookup_filter_some _ _
               (fun r' => rank_min (map (column m) (year_slice y data))
                                   (column m r'))
               (fun ir => Z.eqb (Year (base (snd ir))) y)
               (indexed data) i r); auto.
    + intros r' I'. now apply (@indexed_functional _ data i).
    + simpl. apply Z.eqb_refl.
  - rewrite (@lookup_filter_none _ _
               (fun r' => rank_min (map (column m) (year_slice y data))
                                   (column m r'))
               (fun ir => Z.eqb (Year (base (snd ir))) y)
               (indexed data) i r); auto.
    + intros r' I'. now apply (@indexed_functional _ data i).
    + simpl. now apply Z.eqb_neq.
Qed.

(** The rank column, row by row. *)
Lemma world_rank_rows (m : metric) (data : list Canon) :
  world_rank m data = map (rank_of m data) data.
Proof.
  unfold world_rank.
  rewrite <- (indexed_fst data) at 1. rewrite <- (indexed_snd data) at 3.
  rewrite !map_map. apply map_ext_in. intros [i r] I. simpl.
  rewrite (@lookup_ranked m data i r (years data) I).
  assert (In r data) as Ir by (apply in_combine_r in I; exact I).
  assert (existsb (Z.eqb (Year (base r))) (years data) = true) as ->.
  { apply existsb_exists. exists (Year (base r)). split; [|apply Z.eqb_refl].
    unfold years. apply nodup_In. apply in_map_iff. eauto. }
  rewrite rank_min_count.
  - unfold rank_of, competition_rank, greater_in_year.
    now rewrite count_filter_map.
  - apply in_map. unfold year_slice. apply filter_In. split; auto.
    apply Z.eqb_refl.
Qed.

Lemma eqb_true_not_nan (x y : float) :
  F64.eqb x y = true -> F64.is_nan x = false /\ F64.is_nan y = false.
Proof.
  unfold F64.eqb, SFeqb.
  destruct x as [| | |]; destruct y as [| | |]; simpl;
    try discriminate; auto.
Qed.

Lemma greater_in_year_ties (m : metric) (data : list Canon) (r1 r2 : Canon) :
  Year (base r1) = Year (base r2) ->
  F64.eqb (column m r1) (column m r2) = true ->
  greater_in_year m data r1 = greater_in_year m data r2.
Proof.
  intros Y E. unfold greater_in_year. rewrite Y. f_equal.
  apply filter_ext. intros x.
  destruct (eqb_true_not_nan _ _ E) as [N1 N2].
  destruct (F64.is_nan (column m x)) eqn:Nx.
  - now rewrite !F64Facts.ltb_nan_r.
  - now apply F64Facts.eqb_ltb_congr.
Qed.

(** ** C2 *)

(** C2, as stated, fails: a row whose metric value is missing (here the
    ratio 0/0 of the first row) gets no rank at all, where one plus the
    number of strictly greater values of its year would be 1. *)
Lemma missing_value_has_no_competition_rank :
  world_rank M_Self_Sufficiency_Ratio ratio_rows = [None; Some 1; Some 2]
  /\ map (competition_rank M_Self_Sufficiency_Ratio ratio_rows) ratio_rows
     = [Some 1; Some 1; Some 2]
  /\ world_rank M_Self_Sufficiency_Ratio ratio_rows
     <> map (competition_rank M_Self_Sufficiency_Ratio ratio_rows) ratio_rows.
Proof.
  split; [reflexivity|]. split; [reflexivity|].
  intros H. vm_compute in H. discriminate.
Qed.

(** C2, amended: for every metric the rank column gives each row whose
    value is not missing one plus the number of rows of the same year
    with a strictly greater value, and a row whose value is missing no
    rank; rows of one year with equal values share their rank; and the
    rank of a row depends on the table only through the rows of its own
    year. *)
Theorem world_rank_competition (m : metric) (data : list Canon) :
  world_rank m data = map (rank_of m data) data
  /\ (forall r,
        F64.is_nan (column m r) = false ->
        rank_of m data r = Some (1 + greater_in_year m data r))
  /\ (forall r1 r2,
        Year (base r1) = Year (base r2) ->
        F64.eqb (column m r1) (column m r2) = true ->
        rank_of m data r1 = rank_of m data r2)
  /\ (forall data' r,
        year_slice (Year (base r)) data' = year_slice (Year (base r)) data ->
        rank_of m data' r = rank_of m data r).
Proof.
  split; [apply world_rank_rows|]. split; [|split].
  - intros r N. unfold rank_of, competition_rank. now rewrite N.
  - intros r1 r2 Y E. unfold rank_of, competition_rank.
    destruct (eqb_true_not_nan _ _ E) as [-> ->].
    now rewrite (greater_in_year_ties m data r1 r2 Y E).
  - intros data' r H. unfold rank_of, competition_rank, greater_in_year.
    now rewrite H.
Qed.

(** ** C10 *)

Lemma in_indexed_nth_error {A : Type} (l : list A) (s i : nat) (r : A) :
  In (i, r) (combine (seq s (List.length l)) l) ->
  s <= i /\ nth_error l (i - s) = Some r.
Proof.
  revert s. induction l as [|a l IH]; simpl; intros s I; [destruct I|].
  destruct I as [E|I].
  - inversion E; subst. rewrite Nat.sub_diag. auto.
  - apply IH in I. destruct I as [L N]. split; [lia|].
    replace (i - s) with (S (i - S s)) by lia. exact N.
Qed.

Lemma filter_map_comm {A B : Type} (f : A -> B) (p : B -> bool)
      (l : list A) :
  filter p (map f l) = map f (filter (fun a => p (f a)) l).
Proof.
  induction l as [|a l IH]; simpl; auto.
  destruct (p (f a)); simpl; now rewrite IH.
Qed.

Lemma filter_comm {A : Type} (p q : A -> bool) (l : list A) :
  filter p (filter q l) = filter q (filter p l).
Proof.
  induction l as [|a l IH]; simpl; auto.
  destruct (p a) eqn:P, (q a) eqn:Q; simpl; rewrite ?P, ?Q, IH; auto.
Qed.

(** The rank column of a metric as the export holds it. *)
Lemma export_column (m : metric) (data : list Canon) :
  map (rank_cell m) (world_rank_data data) = world_rank m data.
Proof.
  unfold world_rank_data. rewrite map_map.
  rewrite world_rank_rows. rewrite <- (indexed_snd data) at 3.
  rewrite map_map. apply map_ext_in. intros [i r] I.
  unfold rank_cell. cbn [fst snd rk_Rank].
  assert (nth i (world_rank m data) None = rank_of m data r) as <-.
  { rewrite world_rank_rows. apply nth_error_nth.
    apply in_indexed_nth_error in I. destruct I as [_ I].
    rewrite Nat.sub_0_r in I. now apply map_nth_error. }
  destruct m; reflexivity.
Qed.

(** The missing values do not count for the ranks of the others. *)
Lemma rank_of_present (m : metric) (data : list Canon) (r : Canon) :
  rank_of m (filter (present m) data) r = rank_of m data r.
Proof.
  unfold rank_of, competition_rank, greater_in_year, year_slice.
  destruct (F64.is_nan (column m r)); auto. do 3 f_equal.
  rewrite (filter_comm _ (present m) data). apply filter_filter_imp.
  intros x H. unfold present.
  destruct (F64.is_nan (column m x)) eqn:N; auto.
  rewrite F64Facts.ltb_nan_r in H; auto.
Qed.

(** C10: in the export, for each of the six metrics, a row whose value
    is missing has a null rank and every other row a number; and the
    ranks of the other rows are those of the table without the rows of
    missing value, which are therefore not counted. *)
Theorem missing_value_null_rank (m : metric) (data : list Canon) :
  In m metrics
  /\ map (rank_cell m) (world_rank_data data) = world_rank m data
  /\ (forall i r,
        nth_error data i = Some r ->
        F64.is_nan (column m r) = true ->
        nth_error (world_rank m data) i = Some None)
  /\ (forall i r,
        nth_error data i = Some r ->
        F64.is_nan (column m r) = false ->
        nth_error (world_rank m data) i
        = Some (Some (1 + greater_in_year m data r)))
  /\ world_rank m (filter (present m) data)
     = filter is_some (world_rank m data).
Proof.
  split; [destruct m; simpl; tauto|].
  split; [apply export_column|]. split; [|split].
  - intros i r I N. rewrite world_rank_rows.
    rewrite (map_nth_error (rank_of m data) _ _ I). unfold rank_of. now rewrite N.
  - intros i r I N. rewrite world_rank_rows.
    rewrite (map_nth_error (rank_of m data) _ _ I). unfold rank_of, competition_rank.
    now rewrite N.
  - rewrite !world_rank_rows, filter_map_comm.
    rewrite (filter_ext (fun a => is_some (rank_of m data a)) (present m)).
    + apply map_ext. intros r. apply rank_of_present.
    + intros r. unfold rank_of, present, competition_rank.
      now destruct (F64.is_nan (column m r)).
Qed.

(* ================================================================== *)
(** * Top five with market share *)
(* ================================================================== *)

(** ** The descending sort *)

Lemma before_total (x y : float) : before x y = false -> before y x = true.
Proof.
  unfold before. intros H. apply orb_false_elim in H. destruct H as [Ny H].
  destruct (F64.is_nan x) eqn:Nx; simpl in *; auto.
  rewrite Ny. simpl. now apply F64Facts.leb_total.
Qed.

Lemma before_trans (x y z : float) :
  before x y = true -> before y z = true -> before x z = true.
Proof.
  unfold before. intros H1 H2.
  destruct (F64.is_nan z) eqn:Nz; simpl in *; auto.
  destruct (F64.is_nan y) eqn:Ny; simpl in *; [discriminate|].
  destruct (F64.is_nan x) eqn:Nx; simpl in *; [discriminate|].
  now apply (@F64Facts.leb_trans z y x).
Qed.

Lemma before_numbers (x y : float) :
  F64.is_nan x = false -> F64.is_nan y = false -> before x y = F64.leb y x.
Proof. unfold before. now intros -> ->. Qed.

Lemma insert_row_perm (m : metric) (r : Canon) (l : list Canon) :
  Permutation (insert_row m r l) (r :: l).
Proof.
  induction l as [|h t IH]; simpl; auto.
  destruct (before (column m r) (column m h)); auto.
  rewrite IH. apply perm_swap.
Qed.

Lemma sort_values_perm (m : metric) (l : list Canon) :
  Permutation (sort_values m l) l.
Proof.
  induction l as [|h t IH]; simpl; auto.
  rewrite insert_row_perm. now constructor.
Qed.

Lemma insert_row_sorted (m : metric) (r : Canon) (l : list Canon) :
  StronglySorted (row_before m) l ->
  StronglySorted (row_before m) (insert_row m r l).
Proof.
  induction l as [|h t IH]; simpl; intros S.
  - repeat constructor.
  - inversion S as [|? ? St F]; subst.
    destruct (before (column m r) (column m h)) eqn:E.
    + constructor; [exact S|]. constructor; [exact E|].
      rewrite Forall_forall in *. intros x I. unfold row_before.
      apply (before_trans _ _ _ E). now apply F.
    + constructor; [now apply IH|].
      rewrite Forall_forall in *. intros x I.
      apply (Permutation_in _ (insert_row_perm m r t)) in I.
      destruct I as [<-|I]; [|now apply F].
      unfold row_before. now apply before_total.
Qed.

Lemma sort_values_sorted (m : metric) (l : list Canon) :
  StronglySorted (row_before m) (sort_values m l).
Proof.
  induction l as [|h t IH]; simpl; [constructor|].
  now apply insert_row_sorted.
Qed.

Lemma StronglySorted_app {A : Type} (R : A -> A -> Prop) (l1 l2 : list A) :
  StronglySorted R (l1 ++ l2) ->
  StronglySorted R l1
  /\ (forall a b, In a l1 -> In b l2 -> R a b).
Proof.
  induction l1 as [|h t IH]; simpl; intros S.
  - split; [constructor | intros a b []].
  - inversion S as [|? ? St F]; subst. destruct (IH St) as [S1 H].
    rewrite Forall_forall in F. split.
    + constructor; auto. apply Forall_forall. intros x I.
      apply F. apply in_or_app. now left.
    + intros a b [<-|Ia] Ib; [|now apply H].
      apply F. apply in_or_app. now right.
Qed.

(** ** The summary table *)

Lemma summary_table_short (m : metric) (plot_df : list Canon)
      (market_total : float) :
  List.length plot_df < 5 ->
  summary_table m plot_df market_total = Raise IndexError.
Proof.
  intros H.
  destruct plot_df as [|a [|b [|c [|d [|e rest]]]]]; try reflexivity.
  simpl in H. lia.
Qed.

Lemma summary_table_five (m : metric) (plot_df : list Canon)
      (market_total : float) :
  List.length plot_df = 5 ->
  summary_table m plot_df market_total
  = Ok {| country_name := map (fun r => Area (base r)) plot_df;
          market_share := map (share_of m market_total) plot_df |}.
Proof.
  intros H.
  destruct plot_df as [|a [|b [|c [|d [|e [|f rest]]]]]]; try discriminate.
  reflexivity.
Qed.

Lemma in_scope_spec (year : Z) (scope : string) (r : Canon) :
  in_scope year scope r = true
  <-> Year (base r) = year
      /\ (scope = the_Whole_World \/ Continent (base r) = Some scope).
Proof.
  unfold in_scope.
  destruct (String.eqb_spec scope the_Whole_World) as [E|E].
  - rewrite Z.eqb_eq. tauto.
  - rewrite andb_true_iff, Z.eqb_eq.
    destruct (Continent (base r)) as [c|].
    + destruct (String.eqb_spec c scope) as [->|Ne]; split; try tauto.
      * intros [_ H]; discriminate.
      * intros [_ [H|H]]; [contradiction | inversion H; contradiction].
    + split; [intros [_ H]; discriminate|].
      intros [_ [H|H]]; [contradiction | discriminate].
Qed.

(** ** C4 *)

(** C4: when fewer than five rows are in the scope, the query fails: the
    read of a position the selection does not have raises IndexError,
    and no list of five entries is returned. *)
Theorem top5_fails_below_five (m : metric) (year : Z) (scope : string)
        (data : list Canon) :
  List.length (filter (in_scope year scope) data) < 5 ->
  top5_plot_and_table m year scope data = Raise IndexError.
Proof.
  intros H. unfold top5_plot_and_table. apply summary_table_short.
  rewrite length_firstn.
  rewrite (Permutation_length (sort_values_perm m _)). lia.
Qed.

Lemma top5_fails_below_five_witness :
  List.length (filter (in_scope 2020 "Asia") asia_three) < 5
  /\ top5_plot_and_table M_Production 2020 "Asia" asia_three = Raise IndexError.
Proof.
  assert (List.length (filter (in_scope 2020 "Asia") asia_three) < 5) as H
      by (simpl; lia).
  split; [exact H|]. exact (top5_fails_below_five M_Production _ _ _ H).
Defined.

(** ** C3 *)

(** The scenario of the specification: six Asian rows of 2020 with the
    productions 50, 40, 30, 20, 10 and 30; the five largest come out in
    descending order and the share of the first is 50 / 180 * 100, which
    prints as 27.78. *)
Example top5_asia_2020 :
  exists t,
    top5_plot_and_table M_Production 2020 "Asia" asia_rows = Ok t
    /\ country_name t = ["A"; "B"; "F"; "C"; "D"]
    /\ nth 0 (market_share t) F64.nan
       = F64.mul (F64.div (F64.of_Z 50) (F64.of_Z 180)) (F64.of_Z 100)
    /\ F64.ltb (F64.div (F64.of_Z 27775) (F64.of_Z 1000))
               (nth 0 (market_share t) F64.nan) = true
    /\ F64.ltb (nth 0 (market_share t) F64.nan)
               (F64.div (F64.of_Z 27785) (F64.of_Z 1000)) = true.
Proof. eexists. split; [reflexivity|]. repeat split; reflexivity. Qed.

(** C3: with at least five rows in the scope (the rows of the year, of
    the continent too when the scope is one), the query returns five of
    them, in descending order of the metric (a missing value after every
    number), none of the rows left out being above any of them, and the
    market share of each is its value divided by the sum of the metric
    over all the rows of the scope, times 100. *)
Theorem top5_largest_with_share (m : metric) (year : Z) (scope : string)
        (data : list Canon) :
  let scoped := filter (in_scope year scope) data in
  5 <= List.length scoped ->
  (forall r, In r scoped
             <-> In r data /\ Year (base r) = year
                 /\ (scope = the_Whole_World
                     \/ Continent (base r) = Some scope))
  /\ (forall x y, F64.is_nan x = false -> F64.is_nan y = false ->
                  before x y = F64.leb y x)
  /\ exists top rest,
      Permutation scoped (top ++ rest)
      /\ List.length top = 5
      /\ StronglySorted (row_before m) top
      /\ (forall a b, In a top -> In b rest -> row_before m a b)
      /\ top5_plot_and_table m year scope data
         = Ok {| country_name := map (fun r => Area (base r)) top;
                 market_share :=
                   map (fun r =>
                          F64.mul
                            (F64.div (column m r)
                                     (sum (map (column m) scoped)))
                            (F64.of_Z 100))
                       top |}.
Proof.
  intros scoped H. split; [|split].
  - intros r. unfold scoped. rewrite filter_In, in_scope_spec. tauto.
  - apply before_numbers.
  - exists (firstn 5 (sort_values m scoped)), (skipn 5 (sort_values m scoped)).
    pose proof (sort_values_sorted m scoped) as S.
    rewrite <- (firstn_skipn 5 (sort_values m scoped)) in S.
    apply StronglySorted_app in S. destruct S as [S1 S2].
    assert (List.length (firstn 5 (sort_values m scoped)) = 5) as L.
    { rewrite length_firstn.
      rewrite (Permutation_length (sort_values_perm m scoped)). lia. }
    split; [|split; [|split; [|split]]]; auto.
    + rewrite firstn_skipn. symmetry. apply sort_values_perm.
    + unfold top5_plot_and_table. fold scoped.
      now rewrite summary_table_five.
Qed.

Lemma top5_largest_with_share_witness :
  5 <= List.length (filter (in_scope 2020 "Asia") asia_rows)
  /\ exists top rest,
      Permutation (filter (in_scope 2020 "Asia") asia_rows) (top ++ rest)
      /\ List.length top = 5
      /\ StronglySorted (row_before M_Production) top
      /\ (forall a b, In a top -> In b rest -> row_before M_Production a b)
      /\ top5_plot_and_table M_Production 2020 "Asia" asia_rows
         = Ok {| country_name := map (fun r => Area (base r)) top;
                 market_share :=
                   map (fun r =>
                          F64.mul
                            (F64.div
                               (column M_Production r)
                               (sum (map (column M_Production)
                                         (filter (in_scope 2020 "Asia")
                                                 asia_rows))))
                            (F64.of_Z 100))
                       top |}.
Proof.
  assert (5 <= List.length (filter (in_scope 2020 "Asia") asia_rows)) as H
      by (simpl; lia).
  split; [exact H|].
  exact (proj2 (proj2 (@top5_largest_with_share M_Production 2020 "Asia"
                         asia_rows H))).
Defined.

(* ================================================================== *)
(** * Further properties of the script *)
(* ================================================================== *)

(** ** Cleaning a cell *)

Lemma quote_free_replace (s : string) :
  quote_free (str_replace_quote s) = true.
Proof.
  induction s as [|c r IH]; simpl; auto.
  destruct (Ascii.eqb c quote) eqn:E; simpl; auto. now rewrite E.
Qed.

Lemma replace_quote_free (s : string) :
  quote_free s = true -> str_replace_quote s = s.
Proof.
  induction s as [|c r IH]; simpl; auto.
  destruct (Ascii.eqb c quote); simpl; [discriminate|].
  intros H. now rewrite IH.
Qed.

Lemma quote_free_lstrip (s : string) :
  quote_free s = true -> quote_free (lstrip s) = true.
Proof.
  induction s as [|c r IH]; simpl; auto. intros H.
  destruct (is_space c); auto.
  apply andb_prop in H. now apply IH.
Qed.

Lemma quote_free_rstrip (s : string) :
  quote_free s = true -> quote_free (rstrip s) = true.
Proof.
  induction s as [|c r IH]; simpl; auto. intros H.
  apply andb_prop in H. destruct H as [Hc Hr]. specialize (IH Hr).
  destruct (rstrip r) as [|d r'].
  - destruct (is_space c); simpl; auto. now rewrite Hc.
  - simpl in *. now rewrite Hc, IH.
Qed.

Lemma lstrip_head (s : string) :
  match lstrip s with
  | EmptyString => True
  | String c _ => is_space c = false
  end.
Proof.
  induction s as [|c r IH]; simpl; auto.
  destruct (is_space c) eqn:E; auto.
Qed.

Lemma rstrip_idem (s : string) : rstrip (rstrip s) = rstrip s.
Proof.
  induction s as [|c r IH]; simpl; auto.
  destruct (rstrip r) as [|d r'] eqn:R.
  - destruct (is_space c) eqn:E; simpl; auto. now rewrite E.
  - simpl. simpl in IH. now rewrite IH.
Qed.

Lemma rstrip_keeps_head (c : ascii) (r : string) :
  is_space c = false -> exists r', rstrip (String c r) = String c r'.
Proof.
  intros H. simpl. destruct (rstrip r); [rewrite H|]; eauto.
Qed.

Lemma str_strip_idem (s : string) : str_strip (str_strip s) = str_strip s.
Proof.
  unfold str_strip. pose proof (lstrip_head s) as H.
  destruct (lstrip s) as [|c r]; auto.
  destruct (rstrip_keeps_head c r H) as [r' E].
  rewrite E. simpl lstrip. rewrite H. rewrite <- E. apply rstrip_idem.
Qed.

Lemma clean_cell_idem (s : string) :
  str_strip (str_replace_quote (str_strip (str_replace_quote s)))
  = str_strip (str_replace_quote s).
Proof.
  rewrite (replace_quote_free (str_strip (str_replace_quote s))).
  - apply str_strip_idem.
  - unfold str_strip. apply quote_free_rstrip, quote_free_lstrip.
    apply quote_free_replace.
Qed.

(** X1: cleaning is idempotent.  A cell that went through the removal
    of quotes and the strip is left as it is by a second pass, so the
    numeric cast of a code and the identifier of a reference row are the
    same whether the raw cell or the cleaned cell is cleaned. *)
Theorem cleaning_idempotent (cell : string) :
  let cleaned := str_strip (str_replace_quote cell) in
  str_strip (str_replace_quote cleaned) = cleaned
  /\ clean_numeric cleaned = clean_numeric cell
  /\ quote_free cleaned = true
  /\ lstrip cleaned = cleaned /\ rstrip cleaned = cleaned.
Proof.
  cbv zeta. split; [apply clean_cell_idem|]. split; [|split; [|split]].
  - unfold clean_numeric. now rewrite clean_cell_idem.
  - unfold str_strip. apply quote_free_rstrip, quote_free_lstrip.
    apply quote_free_replace.
  - unfold str_strip. pose proof (lstrip_head (str_replace_quote cell)) as H.
    destruct (lstrip (str_replace_quote cell)) as [|c r]; auto.
    destruct (rstrip_keeps_head c r H) as [r' E]. rewrite E. simpl.
    now rewrite H.
  - unfold str_strip. apply rstrip_idem.
Qed.

(** ** Reading decimal digits *)

Lemma digit_char_cases (d : nat) :
  d < 10 ->
  In (digit_char d)
     ["0"; "1"; "2"; "3"; "4"; "5"; "6"; "7"; "8"; "9"]%char.
Proof.
  intros H. do 10 (destruct d as [|d]; [simpl; tauto|]). lia.
Qed.

Lemma digit_of_digit_char (d : nat) :
  d < 10 -> digit_of (digit_char d) = Some (Z.of_nat d).
Proof.
  intros H. do 10 (destruct d as [|d]; [reflexivity|]). lia.
Qed.

Lemma is_space_digit_char (d : nat) :
  d < 10 -> is_space (digit_char d) = false.
Proof.
  intros H. do 10 (destruct d as [|d]; [reflexivity|]). lia.
Qed.

Lemma quote_digit_char (d : nat) :
  d < 10 -> Ascii.eqb (digit_char d) quote = false.
Proof.
  intros H. do 10 (destruct d as [|d]; [reflexivity|]). lia.
Qed.

Lemma parse_digits_string (ds : list nat) :
  Forall (fun d => d < 10) ds ->
  forall acc b,
    (ds <> [] \/ b = true) ->
    parse_digits (digits_string ds) acc b
    = Some (fold_left (fun acc d => (10 * acc + Z.of_nat d)%Z) ds acc).
Proof.
  induction 1 as [|d ds Hd Hds IH]; intros acc b Hb;
    cbn [digits_string parse_digits fold_left].
  - destruct Hb as [Hb| ->]; [congruence | reflexivity].
  - rewrite (digit_of_digit_char Hd). apply IH. now right.
Qed.

Lemma rstrip_digits (ds : list nat) :
  Forall (fun d => d < 10) ds -> rstrip (digits_string ds) = digits_string ds.
Proof.
  induction 1 as [|d ds Hd Hds IH]; cbn [digits_string rstrip]; auto.
  rewrite IH. destruct ds as [|d' ds']; cbn [digits_string]; auto.
  now rewrite (is_space_digit_char Hd).
Qed.

Lemma str_strip_digits (ds : list nat) :
  Forall (fun d => d < 10) ds ->
  str_strip (digits_string ds) = digits_string ds.
Proof.
  intros H. unfold str_strip.
  assert (lstrip (digits_string ds) = digits_string ds) as ->.
  { destruct H as [|d ds Hd Hds]; cbn [digits_string lstrip]; auto.
    now rewrite (is_space_digit_char Hd). }
  now apply rstrip_digits.
Qed.

Lemma quote_free_digits (ds : list nat) :
  Forall (fun d => d < 10) ds -> quote_free (digits_string ds) = true.
Proof.
  induction 1 as [|d ds Hd Hds IH]; cbn [digits_string quote_free]; auto.
  now rewrite (quote_digit_char Hd), IH.
Qed.

Lemma python_int_digits (ds : list nat) :
  ds <> [] ->
  Forall (fun d => d < 10) ds ->
  python_int (digits_string ds) = Some (digits_value ds).
Proof.
  intros Hne H. unfold python_int. rewrite (str_strip_digits H).
  pose proof (@parse_digits_string ds H 0%Z false (or_introl Hne)) as P.
  destruct ds as [|d ds]; [congruence|].
  inversion H as [|? ? Hd Hds]; subst.
  unfold digits_value. cbn [digits_string] in *.
  destruct (digit_char_cases Hd) as [E|[E|[E|[E|[E|[E|[E|[E|[E|[E|[]]]]]]]]]]];
    rewrite <- E in *; exact P.
Qed.

Lemma replace_quote_append (a b : string) :
  str_replace_quote (a ++ b)%string
  = (str_replace_quote a ++ str_replace_quote b)%string.
Proof.
  induction a as [|c r IH]; simpl; auto.
  destruct (Ascii.eqb c quote); simpl; now rewrite IH.
Qed.

Lemma append_empty_r (s : string) : (s ++ EmptyString)%string = s.
Proof. induction s as [|c r IH]; simpl; auto. now rewrite IH. Qed.

(** X2: the numeric cast reads a code.  A nonempty string of decimal
    digits, bare or wrapped in double quotes, is cast to the number the
    digits denote (leading zeros are dropped, so 004 is 4), provided it
    fits 64 bits. *)
Theorem clean_numeric_reads_digits (ds : list nat) :
  ds <> [] ->
  Forall (fun d => d < 10) ds ->
  (digits_value ds < 2 ^ 63)%Z ->
  clean_numeric (digits_string ds) = Ok (digits_value ds)
  /\ clean_numeric
       (String quote (digits_string ds ++ String quote EmptyString))
     = Ok (digits_value ds).
Proof.
  intros Hne H B.
  assert (clean_numeric (digits_string ds) = Ok (digits_value ds)) as C.
  { unfold clean_numeric, astype_Int64.
    rewrite (replace_quote_free _ (quote_free_digits H)).
    rewrite (str_strip_digits H), (python_int_digits Hne H).
    assert (0 <= digits_value ds)%Z as P.
    { unfold digits_value.
      assert (forall l acc, (0 <= acc)%Z ->
                (0 <= fold_left (fun a d => (10 * a + Z.of_nat d)%Z) l acc)%Z)
        as G by (induction l; cbn [fold_left]; intros; [|apply IHl]; lia).
      apply G. lia. }
    assert (0 < 2 ^ 63)%Z as Q by reflexivity.
    destruct (Z.leb_spec (- 2 ^ 63) (digits_value ds)); [|lia].
    destruct (Z.ltb_spec (digits_value ds) (2 ^ 63)); [|lia].
    reflexivity. }
  split; [exact C|].
  unfold clean_numeric in *. cbn [str_replace_quote].
  rewrite Ascii.eqb_refl, replace_quote_append.
  cbn [str_replace_quote]. rewrite Ascii.eqb_refl, append_empty_r. exact C.
Qed.

Lemma clean_numeric_reads_digits_witness :
  [0; 0; 4] <> []
  /\ Forall (fun d => d < 10) [0; 0; 4]
  /\ Z.lt (digits_value [0; 0; 4]) (2 ^ 63)
  /\ clean_numeric (digits_string [0; 0; 4]) = Ok 4%Z.
Proof.
  assert ([0; 0; 4] <> []) as H1 by discriminate.
  assert (Forall (fun d => d < 10) [0; 0; 4]) as H2
      by (repeat constructor; lia).
  assert (Z.lt (digits_value [0; 0; 4]) (2 ^ 63)) as H3 by reflexivity.
  split; [exact H1|]. split; [exact H2|]. split; [exact H3|].
  exact (proj1 (@clean_numeric_reads_digits [0; 0; 4] H1 H2 H3)).
Defined.

(** ** The left join *)

Lemma mapM_Ok_in {A B : Type} (f : A -> result B) (l : list A)
      (bs : list B) :
  mapM f l = Ok bs ->
  forall b, In b bs -> exists a, In a l /\ f a = Ok b.
Proof.
  revert bs. induction l as [|a l IH]; simpl; intros bs H b I.
  - inversion H; subst. destruct I.
  - destruct (f a) as [b0|e] eqn:Fa; simpl in H; [|discriminate].
    destruct (mapM f l) as [bs'|e]; simpl in H; [|discriminate].
    inversion H; subst. destruct I as [<-|I]; [eauto|].
    destruct (IH bs' eq_refl b I) as (a' & Ia & Fa'). eauto.
Qed.

Lemma mapM_Ok_Forall2 {A B : Type} (f : A -> result B) (l : list A)
      (bs : list B) :
  mapM f l = Ok bs -> Forall2 (fun a b => f a = Ok b) l bs.
Proof.
  revert bs. induction l as [|a l IH]; simpl; intros bs H.
  - inversion H. constructor.
  - destruct (f a) as [b0|e] eqn:Fa; simpl in H; [|discriminate].
    destruct (mapM f l) as [bs'|e]; simpl in H; [|discriminate].
    inversion H; subst. constructor; auto.
Qed.

Lemma build_Ok_inv (classify : Z -> string) (data_raw : list RawTrade)
      (ref_raw : list RawRef) (t : list Canon) :
  build classify data_raw ref_raw = Ok t ->
  exists data ref_table,
    mapM clean_trade data_raw = Ok data
    /\ mapM clean_ref ref_raw = Ok ref_table
    /\ t = finish classify
             (merge (map shorten_area (map fix_sudan data)) ref_table).
Proof.
  unfold build.
  destruct (mapM clean_trade data_raw) as [data|e]; simpl; [|discriminate].
  destruct (mapM clean_ref ref_raw) as [ref_table|e]; simpl; [|discriminate].
  intros H. inversion H. eauto.
Qed.

Lemma in_matches (d : Trade) (ref_table : list Ref) (rf : Ref) :
  In rf (matches d ref_table)
  <-> In rf ref_table /\ ref_Numeric_code rf = t_Area_Code d.
Proof. unfold matches. now rewrite filter_In, Z.eqb_eq. Qed.

Lemma in_merge_inv (data : list Trade) (ref_table : list Ref) (m : Merged) :
  In m (merge data ref_table) ->
  In (m_trade m) data
  /\ match m_Alpha_3_code m with
     | Some a =>
         exists rf,
           In rf ref_table
           /\ ref_Numeric_code rf = t_Area_Code (m_trade m)
           /\ ref_Alpha_3_code rf = a
           /\ m_Numeric_code m = Some (ref_Numeric_code rf)
     | None =>
         m_Numeric_code m = None
         /\ forall rf, In rf ref_table ->
                       ref_Numeric_code rf <> t_Area_Code (m_trade m)
     end.
Proof.
  unfold merge. rewrite in_flat_map. intros (d & Id & H).
  destruct (matches d ref_table) as [|r0 ms] eqn:E.
  - destruct H as [<-|[]]. simpl. split; auto. split; auto.
    intros rf I Hc.
    assert (In rf (matches d ref_table)) as C by (apply in_matches; auto).
    rewrite E in C. exact C.
  - apply in_map_iff in H. destruct H as (rf & <- & I). simpl.
    rewrite <- E in I. apply in_matches in I. destruct I as [I C].
    split; auto. exists rf. auto.
Qed.

Lemma matches_unique (d : Trade) (ref_table : list Ref) :
  NoDup (map ref_Numeric_code ref_table) ->
  List.length (matches d ref_table) <= 1.
Proof.
  unfold matches. induction ref_table as [|r l IH]; simpl; intros N; [lia|].
  inversion N as [|? ? Nr Nl]; subst.
  destruct (Z.eqb_spec (ref_Numeric_code r) (t_Area_Code d)) as [E|E];
    [|now apply IH].
  rewrite filter_none; [simpl; lia|].
  intros x I. apply Z.eqb_neq. intros Ex. apply Nr.
  apply in_map_iff. exists x. split; [congruence | exact I].
Qed.

(** X3: what the left join puts in a row.  Every row of the merged
    frame carries a trade row of the input; its identifier, when it has
    one, is that of a reference row with the same numeric code, and it
    has none only when no reference row has that code.  The frame is
    never shorter than the trade table. *)
Theorem left_join_sound (data : list Trade) (ref_table : list Ref) :
  (forall m, In m (merge data ref_table) ->
     In (m_trade m) data
     /\ match m_Alpha_3_code m with
        | Some a =>
            exists rf,
              In rf ref_table
              /\ ref_Numeric_code rf = t_Area_Code (m_trade m)
              /\ ref_Alpha_3_code rf = a
              /\ m_Numeric_code m = Some (ref_Numeric_code rf)
        | None =>
            m_Numeric_code m = None
            /\ forall rf, In rf ref_table ->
                          ref_Numeric_code rf <> t_Area_Code (m_trade m)
        end)
  /\ List.length data <= List.length (merge data ref_table).
Proof.
  split; [intros m; apply in_merge_inv|].
  unfold merge. induction data as [|d data IH]; cbn [flat_map]; [simpl; lia|].
  rewrite length_app. set (rest := flat_map _ data) in *.
  destruct (matches d ref_table); rewrite ?length_map; cbn [List.length]; lia.
Qed.

(** X4: with reference codes that are all different, the left join
    neither drops nor repeats nor reorders a trade row: the trade
    columns of the merged frame are the trade table itself. *)
Theorem left_join_unique_codes (data : list Trade) (ref_table : list Ref) :
  NoDup (map ref_Numeric_code ref_table) ->
  map m_trade (merge data ref_table) = data.
Proof.
  intros N. unfold merge. induction data as [|d data IH]; cbn [flat_map];
    auto.
  rewrite map_app, IH. pose proof (@matches_unique d ref_table N) as L.
  destruct (matches d ref_table) as [|r [|r' ms]]; simpl in L |- *; auto; lia.
Qed.

Lemma left_join_unique_codes_witness :
  NoDup (map ref_Numeric_code ref_table_demo)
  /\ map m_trade (merge trade_unmatched ref_table_demo) = trade_unmatched.
Proof.
  assert (NoDup (map ref_Numeric_code ref_table_demo)) as N.
  { simpl. repeat constructor; simpl; intros H;
      repeat (destruct H as [H|H]; [discriminate|]); exact H. }
  split; [exact N|]. exact (@left_join_unique_codes trade_unmatched ref_table_demo N).
Defined.

Lemma cleaning_cell_shape (cell : string) :
  quote_free (str_strip (str_replace_quote cell)) = true
  /\ str_strip (str_strip (str_replace_quote cell))
     = str_strip (str_replace_quote cell).
Proof.
  split; [|apply str_strip_idem].
  unfold str_strip. apply quote_free_rstrip, quote_free_lstrip.
  apply quote_free_replace.
Qed.

(** ** The two fixes of the trade table *)

Lemma clean_trade_fields (a : RawTrade) (x : Trade) :
  clean_trade a = Ok x ->
  clean_numeric (raw_Area_Code a) = Ok (t_Area_Code x)
  /\ t_Area x = raw_Area a /\ t_Year x = raw_Year a
  /\ t_Import x = raw_Import a /\ t_Export x = raw_Export a
  /\ t_Production x = raw_Production a
  /\ t_Consumption x = raw_Consumption a
  /\ t_Unit x = raw_Unit a.
Proof.
  unfold clean_trade.
  destruct (clean_numeric (raw_Area_Code a)) as [z|e]; simpl;
    [|discriminate].
  intros H. inversion H; subst. simpl. tauto.
Qed.

Lemma fix_sudan_agree (a b : RawTrade) (x y : Trade) :
  same_but_sudan_code a b ->
  clean_trade a = Ok x -> clean_trade b = Ok y ->
  fix_sudan x = fix_sudan y.
Proof.
  intros (A1 & A2 & A3 & A4 & A5 & A6 & A7 & A8) Ca Cb.
  apply clean_trade_fields in Ca, Cb.
  destruct Ca as (Ka & a1 & a2 & a3 & a4 & a5 & a6 & a7).
  destruct Cb as (Kb & b1 & b2 & b3 & b4 & b5 & b6 & b7).
  unfold fix_sudan. rewrite a1, b1, <- A1.
  destruct (String.eqb_spec (raw_Area a) "Sudan") as [E|E].
  - f_equal; congruence.
  - specialize (A8 E). rewrite A8 in Ka. rewrite Kb in Ka.
    inversion Ka as [Kc]. destruct x, y; simpl in *. congruence.
Qed.



Lemma shorten_area_name (d : Trade) :
  t_Area (shorten_area d) <> long_uk_name.
Proof.
  unfold shorten_area.
  destruct (String.eqb_spec (t_Area d)
              "United Kingdom of Great Britain and Northern Ireland")
    as [E|E]; simpl; [discriminate | exact E].
Qed.

(** A row of the aggregate carries the area of one of the input rows. *)
Lemma aggregate_area_from_rows (rows : list Row) (o : Row) :
  In o (aggregate rows) ->
  exists r, In r rows /\ Area o = Area r /\ ISO_3 o = ISO_3 r
            /\ Continent o = Continent r /\ Year o = Year r.
Proof.
  intros I. apply in_aggregate in I. destruct I as (k & Hk & ->).
  apply in_group_keys, in_keys_of in Hk. destruct Hk as (r & I & K).
  destruct k as [[[a c] i] y]. exists r. unfold row_key in K.
  destruct (Continent r), (ISO_3 r); try discriminate.
  inversion K; subst. simpl. auto.
Qed.

Lemma in_classify_rows_area (classify : Z -> string) (merged : list Merged)
      (r : Row) :
  In r (classify_rows classify merged) ->
  exists m, In m merged /\ Area r = t_Area (m_trade m)
            /\ ISO_3 r = m_Alpha_3_code m.
Proof.
  unfold classify_rows. rewrite in_flat_map. intros (m & I & H).
  exists m. split; auto.
  destruct (convert classify m); [|destruct H].
  destruct H as [<-|[]]. simpl. auto.
Qed.

(** X6: the long name of the United Kingdom never reaches the canonical
    table, and no identifier of the table holds a double quote or is
    padded with whitespace. *)
Theorem table_names_clean (classify : Z -> string)
        (data_raw : list RawTrade) (ref_raw : list RawRef)
        (t : list Canon) (r : Canon) :
  build classify data_raw ref_raw = Ok t ->
  In r t ->
  Area (base r) <> long_uk_name
  /\ exists i, ISO_3 (base r) = Some i
               /\ quote_free i = true /\ str_strip i = i.
Proof.
  intros B I. apply build_Ok_inv in B.
  destruct B as (data & ref_table & M & R & ->).
  apply in_finish_derive in I. destruct I as (o & Ho & ->). simpl.
  destruct (aggregate_keys_from_rows _ _ Ho)
    as (r1 & c & i & _ & _ & _ & _ & Hi).
  apply aggregate_area_from_rows in Ho.
  destruct Ho as (r0 & I0 & A0 & I3 & _ & _).
  apply in_classify_rows_area in I0. destruct I0 as (m & Im & Am & Sm).
  apply in_merge_inv in Im. destruct Im as [Id Hm]. split.
  - rewrite A0, Am. apply in_map_iff in Id. destruct Id as (d & <- & _).
    apply shorten_area_name.
  - exists i. split; auto.
    rewrite I3, Sm in Hi. rewrite Hi in Hm.
    destruct Hm as (rf & Irf & _ & Ea & _).
    destruct (mapM_Ok_in _ _ R rf Irf) as (raw & _ & C).
    unfold clean_ref in C.
    destruct (clean_numeric (raw_Numeric_code raw)); simpl in C;
      [|discriminate].
    inversion C; subst rf. simpl in Ea. subst i.
    destruct (cleaning_cell_shape (raw_Alpha_3_code raw)) as (Q & S).
    auto.
Qed.

Lemma table_names_clean_witness :
  build classify_demo raw_zero_consumption ref_demo
  = Ok [row_zero_consumption]
  /\ In row_zero_consumption [row_zero_consumption]
  /\ Area (base row_zero_consumption) <> long_uk_name.
Proof.
  assert (build classify_demo raw_zero_consumption ref_demo
          = Ok [row_zero_consumption]) as B by reflexivity.
  assert (In row_zero_consumption [row_zero_consumption]) as I
      by (simpl; auto).
  split; [exact B|]. split; [exact I|].
  exact (proj1 (@table_names_clean classify_demo raw_zero_consumption
                  ref_demo _ _ B I)).
Defined.
(** ** The shape of the aggregate *)

Lemma sorted_keys_head (k : key) (l : list key) :
  Sorted key_lt (k :: l) -> forall x, In x l -> key_lt k x.
Proof.
  intros S. apply Sorted_StronglySorted in S;
    [|intros a b c; apply key_lt_trans].
  inversion S as [|? ? _ F]; subst. now apply Forall_forall.
Qed.

(** Two ascending lists of labels with the same members are equal. *)
Lemma sorted_keys_unique (l1 l2 : list key) :
  Sorted key_lt l1 -> Sorted key_lt l2 ->
  (forall k, In k l1 <-> In k l2) -> l1 = l2.
Proof.
  revert l2. induction l1 as [|a l1 IH]; intros [|b l2] S1 S2 H; auto.
  - exfalso. apply (proj2 (H b)). now left.
  - exfalso. apply (proj1 (H a)). now left.
  - assert (a = b) as ->.
    { destruct (proj1 (H a) (or_introl eq_refl)) as [E|Ia]; auto.
      destruct (proj2 (H b) (or_introl eq_refl)) as [E|Ib]; auto.
      exfalso. apply (key_lt_irrefl (a:=a)).
      apply (key_lt_trans (b:=b)).
      - now apply (sorted_keys_head S1).
      - now apply (sorted_keys_head S2). }
    f_equal. apply IH.
    + now inversion S1.
    + now inversion S2.
    + intros k. split; intros I.
      * destruct (proj1 (H k) (or_intror I)) as [E|I']; auto.
        subst k. exfalso. apply (key_lt_irrefl (a:=b)).
        now apply (sorted_keys_head S1).
      * destruct (proj2 (H k) (or_intror I)) as [E|I']; auto.
        subst k. exfalso. apply (key_lt_irrefl (a:=b)).
        now apply (sorted_keys_head S2).
Qed.

Lemma filter_perm {A : Type} (f : A -> bool) (l l' : list A) :
  Permutation l l' -> Permutation (filter f l) (filter f l').
Proof.
  induction 1 as [|x l l' P IH|x y l|l l' l'' P1 IH1 P2 IH2]; simpl; auto.
  - destruct (f x); auto.
  - destruct (f x), (f y); auto. apply perm_swap.
  - now transitivity (filter f l').
Qed.

(** X7: the aggregate is in ascending order of its label (Area,
    Continent, ISO-3, Year): every row has a label and each label is
    strictly below the next one. *)
Theorem aggregate_sorted (rows : list Row) :
  map row_key (aggregate rows) = map Some (keys_of (aggregate rows))
  /\ Sorted key_lt (keys_of (aggregate rows))
  /\ List.length (aggregate rows) <= List.length rows.
Proof.
  unfold aggregate. rewrite keys_of_map_group_sum. split; [|split].
  - rewrite map_map. apply map_ext. apply row_key_group_sum.
  - apply group_keys_sorted.
  - rewrite length_map.
    assert (forall ks : list key,
              List.length (fold_right insert_key [] ks) <= List.length ks)
      as L.
    { induction ks as [|k ks IH]; simpl; auto.
      assert (forall l, List.length (insert_key k l) <= S (List.length l))
        as Hi.
      { induction l as [|h t IHt]; simpl; auto.
        destruct (key_compare k h); simpl; lia. }
      specialize (Hi (fold_right insert_key [] ks)). lia. }
    unfold group_keys. etransitivity; [apply L|].
    induction rows as [|r rows IH]; simpl; auto.
    destruct (row_key r); simpl; lia.
Qed.

(** X8: the groups do not depend on the order of the input rows.  Two
    tables that are permutations of each other aggregate to the same
    labels in the same order, and the group of each label holds the same
    rows. *)
Theorem aggregate_groups_order_free (rows rows' : list Row) :
  Permutation rows rows' ->
  map row_key (aggregate rows) = map row_key (aggregate rows')
  /\ forall k, Permutation (group_rows k rows) (group_rows k rows').
Proof.
  intros P. split.
  - unfold aggregate. rewrite !map_map.
    rewrite (map_ext _ Some (row_key_group_sum rows)).
    rewrite (map_ext _ Some (row_key_group_sum rows')). f_equal.
    apply sorted_keys_unique; try apply group_keys_sorted.
    intros k. rewrite !in_group_keys, !in_keys_of.
    split; intros (r & I & K); exists r; split; auto.
    + now apply (Permutation_in _ P).
    + now apply (Permutation_in _ (Permutation_sym P)).
  - intros k. unfold group_rows. now apply filter_perm.
Qed.

Lemma aggregate_groups_order_free_witness :
  let rows := [testland (F64.of_Z 10); testland (F64.of_Z 5)] in
  let rows' := [testland (F64.of_Z 5); testland (F64.of_Z 10)] in
  Permutation rows rows'
  /\ map row_key (aggregate rows) = map row_key (aggregate rows').
Proof.
  assert (Permutation [testland (F64.of_Z 10); testland (F64.of_Z 5)]
                      [testland (F64.of_Z 5); testland (F64.of_Z 10)]) as P
      by apply perm_swap.
  split; [exact P|]. exact (proj1 (aggregate_groups_order_free P)).
Defined.
(** ** Net trade *)

Lemma binary_normalize_not_nan (m e : Z) (sz : bool) :
  F64.is_nan (binary_normalize F64.prec F64.emax m e sz) = false.
Proof.
  unfold binary_normalize, binary_round.
  destruct m as [|p|p]; auto;
    destruct (shl_align p e _) as [mz ez];
    now apply F64Facts.binary_round_aux_not_nan.
Qed.

Lemma sub_nan (x y : float) :
  F64.is_nan (F64.sub x y)
  = F64.is_nan x || F64.is_nan y || same_sign x y.
Proof.
  destruct x as [[]|[]| |sx mx ex], y as [[]|[]| |sy my ey];
    try reflexivity.
  unfold F64.sub, SFsub. now rewrite binary_normalize_not_nan.
Qed.

Lemma sub_self (x : float) :
  F64.is_nan x = false -> F64.is_inf x = false -> F64.sub x x = F64.zero.
Proof.
  destruct x as [[]|[]| |sx mx ex]; simpl; intros N I;
    try discriminate; try reflexivity.
  unfold F64.sub, SFsub. now rewrite Z.sub_diag.
Qed.



(** ** More on the world rank *)

Lemma ltb_not_nan (x y : float) :
  F64.ltb x y = true -> F64.is_nan x = false /\ F64.is_nan y = false.
Proof.
  unfold F64.ltb, SFltb.
  destruct x as [| | |]; destruct y as [| | |]; simpl;
    try discriminate; auto.
Qed.

Lemma ltb_trans (x y z : float) :
  F64.ltb x y = true -> F64.ltb y z = true -> F64.ltb x z = true.
Proof.
  intros H1 H2.
  destruct (ltb_not_nan _ _ H1) as [Nx Ny].
  destruct (ltb_not_nan _ _ H2) as [_ Nz].
  apply F64Facts.ltb_ord in H1, H2; auto. apply F64Facts.ltb_ord; auto.
  now apply (F64Facts.ord_compare_lt_trans _ _ _ H1 H2).
Qed.

Lemma ltb_irrefl (x : float) : F64.ltb x x = false.
Proof.
  destruct (F64.is_nan x) eqn:N; [now apply F64Facts.ltb_nan_r|].
  apply Bool.not_true_iff_false. intros H.
  apply F64Facts.ltb_ord in H; auto.
  rewrite F64Facts.ord_compare_refl in H. discriminate.
Qed.

Lemma ltb_false_leb (x y : float) :
  F64.is_nan x = false -> F64.is_nan y = false ->
  F64.ltb x y = false -> F64.leb y x = true.
Proof.
  intros Nx Ny H. apply F64Facts.leb_ord; auto.
  rewrite F64Facts.ord_compare_antisym.
  destruct (F64.ord_compare (F64.ord x) (F64.ord y)) eqn:C;
    try discriminate.
  apply F64Facts.ltb_ord in C; auto. congruence.
Qed.

Lemma count_filter_le {A : Type} (f g : A -> bool) (l : list A) :
  (forall x, f x = true -> g x = true) ->
  List.length (filter f l) <= List.length (filter g l).
Proof.
  intros H. induction l as [|a l IH]; simpl; auto.
  destruct (f a) eqn:Fa.
  - rewrite (H a Fa). simpl. lia.
  - destruct (g a); simpl; lia.
Qed.

Lemma count_filter_lt {A : Type} (f g : A -> bool) (l : list A) (x : A) :
  (forall y, f y = true -> g y = true) ->
  In x l -> g x = true -> f x = false ->
  List.length (filter f l) < List.length (filter g l).
Proof.
  intros H. induction l as [|a l IH]; simpl; intros I G F; [destruct I|].
  pose proof (count_filter_le f g l H) as L.
  destruct I as [->|I].
  - rewrite F, G. simpl. lia.
  - specialize (IH I G F). destruct (f a) eqn:Fa.
    + rewrite (H a Fa). simpl. lia.
    + destruct (g a); simpl; lia.
Qed.

Lemma in_year_slice (y : Z) (data : list Canon) (r : Canon) :
  In r (year_slice y data) <-> In r data /\ Year (base r) = y.
Proof. unfold year_slice. now rewrite filter_In, Z.eqb_eq. Qed.

Lemma rank_of_monotone (m : metric) (data : list Canon)
        (r1 r2 : Canon) :
  In r1 data ->
  Year (base r1) = Year (base r2) ->
  F64.ltb (column m r2) (column m r1) = true ->
  exists k1 k2,
    rank_of m data r1 = Some k1
    /\ rank_of m data r2 = Some k2
    /\ k1 < k2.
Proof.
  intros I Y L. destruct (ltb_not_nan _ _ L) as [N2 N1].
  exists (S (greater_in_year m data r1)), (S (greater_in_year m data r2)).
  unfold rank_of, competition_rank. rewrite N1, N2.
  split; [reflexivity|]. split; [reflexivity|].
  apply -> Nat.succ_lt_mono. unfold greater_in_year. rewrite <- Y.
  apply (count_filter_lt _ _ _ r1).
  - intros x H. now apply (ltb_trans _ _ _ L).
  - now apply in_year_slice.
  - exact L.
  - apply ltb_irrefl.
Qed.

Lemma rank_of_bounds (m : metric) (data : list Canon) (r : Canon) :
  In r data ->
  F64.is_nan (column m r) = false ->
  exists k,
    rank_of m data r = Some k
    /\ 1 <= k
    /\ k <= List.length
              (filter (present m) (year_slice (Year (base r)) data)).
Proof.
  intros I N. exists (S (greater_in_year m data r)).
  unfold rank_of, competition_rank. rewrite N.
  split; [reflexivity|]. split; [lia|].
  unfold greater_in_year. apply (count_filter_lt _ _ _ r).
  - intros x H. unfold present.
    destruct (ltb_not_nan _ _ H) as [_ Nx]. now rewrite Nx.
  - now apply in_year_slice.
  - unfold present. now rewrite N.
  - apply ltb_irrefl.
Qed.

(** A list of rows with a value has a row that none is above. *)
Lemma maximal_row (m : metric) (l : list Canon) :
  l <> [] ->
  Forall (fun r => F64.is_nan (column m r) = false) l ->
  exists r, In r l
            /\ forall r', In r' l -> F64.ltb (column m r) (column m r') = false.
Proof.
  intros Hne F. induction F as [|a l Na F IH]; [congruence|].
  destruct l as [|b l'].
  - exists a. split; [now left|]. intros r' [<-|[]]. apply ltb_irrefl.
  - destruct IH as (r & Ir & Hr); [discriminate|].
    assert (F64.is_nan (column m r) = false) as Nr
        by (rewrite Forall_forall in F; now apply F).
    destruct (F64.ltb (column m r) (column m a)) eqn:L.
    + exists a. split; [now left|]. intros r' [<-|I']; [apply ltb_irrefl|].
      apply Bool.not_true_iff_false. intros L'.
      pose proof (ltb_trans _ _ _ L L') as T.
      rewrite (Hr r' I') in T. discriminate.
    + exists r. split; [now right|]. intros r' [<-|I']; auto.
Qed.

Lemma nth_error_world_rank (m : metric) (data : list Canon) (i : nat)
      (r : Canon) :
  nth_error data i = Some r ->
  nth_error (world_rank m data) i = Some (rank_of m data r).
Proof.
  intros H. rewrite world_rank_rows. now apply map_nth_error.
Qed.

(** X10: a greater value has a better rank.  Of two rows of the same
    year whose values of the metric are strictly ordered, the greater
    one has the strictly smaller number in the rank column. *)
Theorem world_rank_monotone (m : metric) (data : list Canon)
        (i1 i2 : nat) (r1 r2 : Canon) :
  nth_error data i1 = Some r1 ->
  nth_error data i2 = Some r2 ->
  Year (base r1) = Year (base r2) ->
  F64.ltb (column m r2) (column m r1) = true ->
  exists k1 k2,
    nth_error (world_rank m data) i1 = Some (Some k1)
    /\ nth_error (world_rank m data) i2 = Some (Some k2)
    /\ k1 < k2.
Proof.
  intros E1 E2 Y L.
  destruct (@rank_of_monotone m data r1 r2 (nth_error_In _ _ E1) Y L)
    as (k1 & k2 & R1 & R2 & K).
  exists k1, k2.
  rewrite (nth_error_world_rank m _ _ E1), (nth_error_world_rank m _ _ E2).
  rewrite R1, R2. auto.
Qed.

Lemma world_rank_monotone_witness :
  exists r1 r2,
    nth_error ratio_rows 1 = Some r1
    /\ nth_error ratio_rows 2 = Some r2
    /\ Year (base r1) = Year (base r2)
    /\ F64.ltb (column M_Self_Sufficiency_Ratio r2)
               (column M_Self_Sufficiency_Ratio r1) = true
    /\ exists k1 k2,
        nth_error (world_rank M_Self_Sufficiency_Ratio ratio_rows) 1
        = Some (Some k1)
        /\ nth_error (world_rank M_Self_Sufficiency_Ratio ratio_rows) 2
           = Some (Some k2)
        /\ k1 < k2.
Proof.
  destruct (nth_error ratio_rows 1) as [r1|] eqn:E1;
    [|vm_compute in E1; discriminate].
  destruct (nth_error ratio_rows 2) as [r2|] eqn:E2;
    [|vm_compute in E2; discriminate].
  exists r1, r2.
  assert (Year (base r1) = Year (base r2)) as Y.
  { vm_compute in E1, E2. inversion E1; inversion E2; subst. reflexivity. }
  assert (F64.ltb (column M_Self_Sufficiency_Ratio r2)
                  (column M_Self_Sufficiency_Ratio r1) = true) as L.
  { vm_compute in E1, E2. inversion E1; inversion E2; subst. reflexivity. }
  split; [reflexivity|]. split; [reflexivity|].
  split; [exact Y|]. split; [exact L|].
  exact (@world_rank_monotone M_Self_Sufficiency_Ratio ratio_rows 1 2 r1 r2
           E1 E2 Y L).
Defined.

(** X11: the range of the ranks.  A row with a value has a rank between
    1 and the number of rows of its year that have a value; and in a
    year where some row has a value, some row has rank 1. *)
Theorem world_rank_range (m : metric) (data : list Canon) :
  (forall i r,
      nth_error data i = Some r ->
      F64.is_nan (column m r) = false ->
      exists k,
        nth_error (world_rank m data) i = Some (Some k)
        /\ 1 <= k
        /\ k <= List.length
                  (filter (present m) (year_slice (Year (base r)) data)))
  /\ (forall r0,
        In r0 data -> F64.is_nan (column m r0) = false ->
        exists i r,
          nth_error data i = Some r
          /\ Year (base r) = Year (base r0)
          /\ nth_error (world_rank m data) i = Some (Some 1)).
Proof.
  split.
  - intros i r E N.
    destruct (@rank_of_bounds m data r (nth_error_In _ _ E) N)
      as (k & R & B).
    exists k. rewrite (nth_error_world_rank m _ _ E), R. auto.
  - intros r0 I0 N0.
    set (y := Year (base r0)).
    set (l := filter (present m) (year_slice y data)).
    assert (In r0 l) as Il.
    { apply filter_In. split; [now apply in_year_slice|].
      unfold present. now rewrite N0. }
    destruct (@maximal_row m l) as (r & Ir & Hr).
    + intros E. rewrite E in Il. exact Il.
    + apply Forall_forall. intros x Ix. apply filter_In in Ix.
      destruct Ix as [_ Px]. unfold present in Px.
      now destruct (F64.is_nan (column m x)).
    + apply filter_In in Ir. destruct Ir as [Is Pr].
      apply in_year_slice in Is. destruct Is as [Id Yr].
      destruct (In_nth_error _ _ Id) as [i E].
      exists i, r. split; [exact E|]. split; [exact Yr|].
      rewrite (nth_error_world_rank m _ _ E).
      unfold rank_of, competition_rank, greater_in_year. unfold present in Pr.
      destruct (F64.is_nan (column m r)); [discriminate|].
      rewrite filter_none; [reflexivity|].
      intros x Ix. rewrite Yr in Ix.
      destruct (F64.is_nan (column m x)) eqn:Nx;
        [now apply F64Facts.ltb_nan_r|].
      apply Hr. apply filter_In. split; auto.
      unfold present. now rewrite Nx.
Qed.

Lemma ltb_pinf (x : float) : F64.ltb F64.pinf x = false.
Proof. now destruct x as [| [] | |]. Qed.

(** X12: zero consumption puts a producer first.  In a table that the
    build produced, a row with a positive production and consumption 0
    has the ratio +inf and the rank 1 of its year for the
    Self-Sufficiency Ratio. *)
Theorem zero_consumption_ranks_first (classify : Z -> string)
        (data_raw : list RawTrade) (ref_raw : list RawRef)
        (t : list Canon) (i : nat) (r : Canon)
        (mp : positive) (ep : Z) :
  build classify data_raw ref_raw = Ok t ->
  nth_error t i = Some r ->
  Production (base r) = S754_finite false mp ep ->
  Consumption (base r) = F64.zero ->
  Self_Sufficiency_Ratio r = F64.pinf
  /\ nth_error (world_rank M_Self_Sufficiency_Ratio t) i = Some (Some 1).
Proof.
  intros B E P C.
  assert (Self_Sufficiency_Ratio r = F64.pinf) as Q.
  { apply build_Ok_finish in B. destruct B as [merged ->].
    apply nth_error_In, in_finish_derive in E.
    destruct E as (a & _ & ->). simpl in *. now rewrite P, C. }
  split; [exact Q|].
  rewrite (nth_error_world_rank M_Self_Sufficiency_Ratio _ _ E).
  unfold rank_of, competition_rank, greater_in_year. simpl column.
  rewrite Q. simpl F64.is_nan. rewrite filter_none; [reflexivity|].
  intros x _. apply ltb_pinf.
Qed.

Lemma zero_consumption_ranks_first_witness :
  build classify_demo raw_zero_consumption ref_demo
  = Ok [row_zero_consumption]
  /\ nth_error [row_zero_consumption] 0 = Some row_zero_consumption
  /\ Production (base row_zero_consumption) = F64.of_Z 5
  /\ Consumption (base row_zero_consumption) = F64.zero
  /\ nth_error (world_rank M_Self_Sufficiency_Ratio [row_zero_consumption]) 0
     = Some (Some 1).
Proof.
  assert (build classify_demo raw_zero_consumption ref_demo
          = Ok [row_zero_consumption]) as B by reflexivity.
  assert (nth_error [row_zero_consumption] 0 = Some row_zero_consumption)
    as E by reflexivity.
  split; [exact B|]. split; [exact E|].
  split; [reflexivity|]. split; [reflexivity|].
  exact (proj2 (@zero_consumption_ranks_first classify_demo
                  raw_zero_consumption ref_demo _ 0 _ _ _ B E
                  eq_refl eq_refl)).
Defined.


(** ** The callback of tab 3 *)

(** X13: the charts of tab 3 do not follow the metric picker.  The loop
    that builds the export rebinds [metric], so after it the variable
    names the last metric of the list: whatever metric is passed in,
    both charts are those of the Self-Sufficiency Ratio, and only the
    title names the metric that was picked. *)
Theorem tab3_charts_ignore_metric (countries : option (list string))
        (m : metric) (start_year end_year : option Z) (triggered : bool)
        (data : list Canon) :
  let out := country_level_plots countries m start_year end_year triggered
                                 data in
  let ssr := country_level_plots countries M_Self_Sufficiency_Ratio
                                 start_year end_year triggered data in
  country_time_series out = country_time_series ssr
  /\ country_world_rank out = country_world_rank ssr
  /\ (forall f, country_time_series out = Some f ->
                y_metric f = M_Self_Sufficiency_Ratio)
  /\ (forall f, country_world_rank out = Some f ->
                y_metric f = M_Self_Sufficiency_Ratio)
  /\ tab3_title out
     = ("Country-level Deep Dive of Spice " ++ metric_name m)%string.
Proof.
  cbv zeta. unfold country_level_plots.
  replace (after_loop m) with M_Self_Sufficiency_Ratio by reflexivity.
  replace (after_loop M_Self_Sufficiency_Ratio)
    with M_Self_Sufficiency_Ratio by reflexivity.
  destruct countries as [cs|], start_year as [s|], end_year as [e|];
    try (cbn [country_time_series country_world_rank tab3_title];
         repeat split; auto; intros f H; discriminate).
  destruct (Z.leb e s);
    cbn [country_time_series country_world_rank tab3_title];
    repeat split; auto; intros f H; try discriminate;
    inversion H; reflexivity.
Qed.

Lemma filter_combine_map {A B : Type} (p : A -> bool) (f : A -> B)
      (l : list A) :
  filter (fun ab => p (fst ab)) (combine l (map f l))
  = map (fun a => (a, f a)) (filter p l).
Proof.
  induction l as [|a l IH]; simpl; auto.
  destruct (p a); simpl; now rewrite IH.
Qed.

Lemma cond_spec (countries : list string) (s e : Z) (r : Canon) :
  cond countries s e r = true
  <-> In (Area (base r)) countries
      /\ (s <= Year (base r) <= e)%Z.
Proof.
  unfold cond. rewrite !andb_true_iff, !Z.leb_le, existsb_exists.
  split.
  - intros [(x & I & E) H]. apply String.eqb_eq in E. subst x. tauto.
  - intros [I H]. split; [|tauto].
    exists (Area (base r)). split; auto. apply String.eqb_refl.
Qed.

(** X14: the guards of tab 3.  The warning is shown exactly when the
    three inputs are there and the end year is not after the start
    year; the two figures are drawn exactly when the three inputs are
    there and the start year is before the end year; the export is
    handed out exactly when the download button triggered the callback,
    whatever the other inputs are. *)
Theorem tab3_guards (countries : option (list string)) (m : metric)
        (start_year end_year : option Z) (triggered : bool)
        (data : list Canon) :
  let out := country_level_plots countries m start_year end_year triggered
                                 data in
  (tab3_warning out = "End year must be greater than start year."
   <-> exists cs s e, countries = Some cs /\ start_year = Some s
                      /\ end_year = Some e /\ (e <= s)%Z)
  /\ (tab3_warning out <> "End year must be greater than start year."
      -> tab3_warning out = "")
  /\ ((exists f, country_time_series out = Some f)
      <-> exists cs s e, countries = Some cs /\ start_year = Some s
                         /\ end_year = Some e /\ (s < e)%Z)
  /\ ((exists f, country_world_rank out = Some f)
      <-> exists f, country_time_series out = Some f)
  /\ tab3_download out
     = (if triggered then Some (world_rank_data data) else None).
Proof.
  cbv zeta. unfold country_level_plots.
  destruct countries as [cs|], start_year as [s|], end_year as [e|];
    try (cbn [tab3_warning country_time_series country_world_rank
                tab3_download];
         split; [split; [intros H; discriminate
                        |intros (? & ? & ? & ? & ? & ? & ?); congruence]|];
         split; [reflexivity|];
         split; [split; [intros [? H]; discriminate
                        |intros (? & ? & ? & ? & ? & ? & ?); congruence]|];
         split; [split; intros [? H]; discriminate | reflexivity]).
  destruct (Z.leb_spec e s) as [L|L];
    cbn [tab3_warning country_time_series country_world_rank tab3_download].
  - split; [split; [intros _; exists cs, s, e; auto | reflexivity]|].
    split; [intros H; congruence|].
    split; [split; [intros [? H]; discriminate|]|].
    + intros (cs' & s' & e' & E1 & E2 & E3 & H).
      inversion E2; inversion E3; subst. lia.
    + split; [split; intros [? H]; discriminate | reflexivity].
  - split; [split; [intros H; discriminate|]|].
    + intros (cs' & s' & e' & E1 & E2 & E3 & H).
      inversion E2; inversion E3; subst. lia.
    + split; [reflexivity|].
      split; [split; [intros _; exists cs, s, e; auto | eauto]|].
      split; [split; intros _; eauto | reflexivity].
Qed.

(** X15: what tab 3 draws.  With the start year before the end year,
    both charts hold one point for each row whose area is selected and
    whose year lies between the two years, bounds included, in table
    order; and the rank drawn for a row is its rank among all the rows
    of its year, not among the selected ones. *)
Theorem tab3_points (cs : list string) (m : metric) (s e : Z)
        (triggered : bool) (data : list Canon) :
  (s < e)%Z ->
  let out := country_level_plots (Some cs) m (Some s) (Some e) triggered
                                 data in
  let selected := filter (cond cs s e) data in
  (forall r, In r selected
             <-> In r data /\ In (Area (base r)) cs
                 /\ (s <= Year (base r) <= e)%Z)
  /\ option_map (@points float) (country_time_series out)
     = Some (map (fun r => (Area (base r), Year (base r),
                            Self_Sufficiency_Ratio r))
                 selected)
  /\ option_map (@points (option nat)) (country_world_rank out)
     = Some (map (fun r => (Area (base r), Year (base r),
                            rank_of M_Self_Sufficiency_Ratio data r))
                 selected).
Proof.
  intros L. cbv zeta. split; [|split].
  - intros r. rewrite filter_In, cond_spec. tauto.
  - unfold country_level_plots.
    destruct (Z.leb_spec e s) as [H|H]; [lia|]. reflexivity.
  - unfold country_level_plots.
    destruct (Z.leb_spec e s) as [H|H]; [lia|].
    replace (after_loop m) with M_Self_Sufficiency_Ratio by reflexivity.
    cbn [country_world_rank option_map points].
    rewrite world_rank_rows, filter_combine_map, map_map. reflexivity.
Qed.

Lemma tab3_points_witness :
  (1999 < 2001)%Z
  /\ option_map (@points (option nat))
       (country_world_rank
          (country_level_plots (Some ["B"; "D"]) M_Import (Some 1999%Z)
                               (Some 2001%Z) false ratio_rows))
     = Some (map (fun r => (Area (base r), Year (base r),
                            rank_of M_Self_Sufficiency_Ratio ratio_rows r))
                 (filter (cond ["B"; "D"] 1999 2001) ratio_rows)).
Proof.
  assert (1999 < 2001)%Z as L by reflexivity.
  split; [exact L|].
  exact (proj2 (proj2 (@tab3_points ["B"; "D"] M_Import 1999 2001 false
                         ratio_rows L))).
Defined.

(** ** More on the top five *)

Lemma sum_zeros (l : list float) :
  Forall (fun v => F64.is_zero v = true) l -> sum l = F64.zero.
Proof.
  unfold sum. intros H.
  assert (forall acc, acc = F64.zero ->
            fold_left
              (fun acc v => if F64.is_nan v then acc else F64.add acc v)
              l acc = F64.zero) as G.
  { induction H as [|v l Hv _ IH]; intros acc ->; simpl; auto.
    apply IH. destruct v as [[]| | |]; try discriminate; reflexivity. }
  now apply G.
Qed.

Lemma map_constant {A B : Type} (f : A -> B) (c : B) (l : list A) :
  (forall x, In x l -> f x = c) -> map f l = repeat c (List.length l).
Proof.
  induction l as [|a l IH]; simpl; intros H; auto.
  rewrite (H a (or_introl eq_refl)), IH; auto.
Qed.

(** X16: a scope without any volume.  When the scope has at least five
    rows and the metric is 0 in every one of them, the total is 0, no
    exception is raised, and each of the five market shares is NaN
    (0 / 0 * 100). *)
Theorem top5_zero_total (m : metric) (year : Z) (scope : string)
        (data : list Canon) :
  5 <= List.length (filter (in_scope year scope) data) ->
  (forall r, In r (filter (in_scope year scope) data) ->
             F64.is_zero (column m r) = true) ->
  exists t,
    top5_plot_and_table m year scope data = Ok t
    /\ market_share t = repeat F64.nan 5.
Proof.
  intros L Z0. unfold top5_plot_and_table.
  set (scoped := filter (in_scope year scope) data) in *.
  assert (List.length (firstn 5 (sort_values m scoped)) = 5) as L5.
  { rewrite length_firstn.
    rewrite (Permutation_length (sort_values_perm m scoped)). lia. }
  rewrite (summary_table_five m _ _ L5). eexists. split; [reflexivity|].
  cbn [market_share]. rewrite <- L5 at 2. apply map_constant.
  intros r I. unfold share_of.
  rewrite sum_zeros.
  - assert (In r scoped) as Is.
    { apply (Permutation_in _ (sort_values_perm m scoped)).
      rewrite <- (firstn_skipn 5 (sort_values m scoped)).
      apply in_or_app. now left. }
    specialize (Z0 r Is).
    destruct (column m r) as [[]| | |]; try discriminate; reflexivity.
  - apply Forall_map, Forall_forall. exact Z0.
Qed.

Lemma top5_zero_total_witness :
  5 <= List.length (filter (in_scope 2020 "Asia") asia_idle)
  /\ (forall r, In r (filter (in_scope 2020 "Asia") asia_idle) ->
                F64.is_zero (column M_Production r) = true)
  /\ exists t,
      top5_plot_and_table M_Production 2020 "Asia" asia_idle = Ok t
      /\ market_share t = repeat F64.nan 5.
Proof.
  assert (5 <= List.length (filter (in_scope 2020 "Asia") asia_idle)) as L
      by (simpl; lia).
  assert (forall r, In r (filter (in_scope 2020 "Asia") asia_idle) ->
                    F64.is_zero (column M_Production r) = true) as Z0.
  { intros r I. simpl in I.
    repeat (destruct I as [<-|I]; [reflexivity|]). destruct I. }
  split; [exact L|]. split; [exact Z0|].
  exact (@top5_zero_total M_Production 2020 "Asia" asia_idle L Z0).
Defined.

(** X17: a year or a continent the table does not have.  When no row of
    the table is of the requested year, or the scope is a continent no
    row of that year belongs to, the query raises IndexError. *)
Theorem top5_absent_scope (m : metric) (year : Z) (scope : string)
        (data : list Canon) :
  ((forall r, In r data -> Year (base r) <> year)
   \/ (scope <> the_Whole_World
       /\ forall r, In r data -> Year (base r) = year ->
                    Continent (base r) <> Some scope)) ->
  top5_plot_and_table m year scope data = Raise IndexError.
Proof.
  intros H. unfold top5_plot_and_table. apply summary_table_short.
  rewrite filter_none; [simpl; lia|].
  intros r I. apply Bool.not_true_iff_false. intros S.
  apply in_scope_spec in S. destruct S as [Y C].
  destruct H as [H|[Hs H]].
  - exact (H r I Y).
  - destruct C as [C|C]; [contradiction|]. exact (H r I Y C).
Qed.

Lemma top5_absent_scope_witness :
  (forall r, In r asia_rows -> Year (base r) <> 1999%Z)
  /\ top5_plot_and_table M_Production 1999 "Asia" asia_rows
     = Raise IndexError.
Proof.
  assert (forall r, In r asia_rows -> Year (base r) <> 1999%Z) as H.
  { intros r I. simpl in I.
    repeat (destruct I as [<-|I]; [discriminate|]). destruct I. }
  split; [exact H|].
  exact (@top5_absent_scope M_Production 1999 "Asia" asia_rows
           (or_introl H)).
Defined.

(** ** Sorted labels *)

Section Labels.

Variable K : Type.
Variable cmp : K -> K -> comparison.
Hypothesis cmp_eq : forall a b, cmp a b = Eq -> a = b.
Hypothesis cmp_antisym : forall a b, cmp b a = CompOpp (cmp a b).
Hypothesis cmp_trans :
  forall a b c, cmp a b = Lt -> cmp b c = Lt -> cmp a c = Lt.

Lemma in_insert_label (x k : K) (l : list K) :
  In x (insert_label cmp k l) <-> x = k \/ In x l.
Proof.
  induction l as [|h t IH]; simpl; [intuition|].
  destruct (cmp k h) eqn:E; simpl.
  - apply cmp_eq in E. subst. intuition.
  - intuition.
  - rewrite IH. intuition.
Qed.

Lemma in_labels (x : K) (ks : list K) : In x (labels cmp ks) <-> In x ks.
Proof.
  unfold labels. induction ks as [|k ks IH]; simpl; [tauto|].
  rewrite in_insert_label, IH. intuition.
Qed.

Lemma insert_label_sorted (k : K) (l : list K) :
  Sorted (fun a b => cmp a b = Lt) l ->
  Sorted (fun a b => cmp a b = Lt) (insert_label cmp k l).
Proof.
  induction l as [|h t IH]; simpl; intros S.
  - repeat constructor.
  - inversion S as [|? ? St Hd]; subst.
    destruct (cmp k h) eqn:E.
    + exact S.
    + constructor; auto.
    + constructor; auto.
      assert (cmp h k = Lt) as Hhk by (rewrite cmp_antisym, E; reflexivity).
      destruct t as [|h' t']; simpl.
      * repeat constructor. exact Hhk.
      * inversion Hd; subst. destruct (cmp k h'); constructor; auto.
Qed.

Lemma labels_sorted (ks : list K) :
  Sorted (fun a b => cmp a b = Lt) (labels cmp ks).
Proof.
  unfold labels. induction ks as [|k ks IH]; simpl.
  - constructor.
  - now apply insert_label_sorted.
Qed.

Lemma labels_NoDup (ks : list K) : NoDup (labels cmp ks).
Proof.
  pose proof (labels_sorted ks) as S.
  apply Sorted_StronglySorted in S; [|intros a b c; apply cmp_trans].
  induction S as [|a l S IH F]; constructor; auto.
  intros I. rewrite Forall_forall in F. specialize (F a I).
  specialize (cmp_antisym a a). rewrite F in cmp_antisym. discriminate.
Qed.

End Labels.

(** ** The world average of tab 1 *)

Lemma sum_skips_missing (vals : list float) :
  sum (filter (fun v => negb (F64.is_nan v)) vals) = sum vals.
Proof.
  unfold sum. generalize F64.zero.
  induction vals as [|v vals IH]; intros acc; simpl; auto.
  destruct (F64.is_nan v) eqn:N; simpl; rewrite ?N; apply IH.
Qed.

Lemma mean_skips_missing (vals : list float) :
  mean (filter (fun v => negb (F64.is_nan v)) vals) = mean vals.
Proof.
  unfold mean. rewrite sum_skips_missing. do 4 f_equal.
  apply filter_filter_imp. auto.
Qed.

Lemma mean_all_missing (vals : list float) :
  Forall (fun v => F64.is_nan v = true) vals -> mean vals = F64.nan.
Proof.
  intros H. unfold mean.
  assert (filter (fun v => negb (F64.is_nan v)) vals = []) as E.
  { apply filter_none. rewrite Forall_forall in H. intros x I.
    now rewrite (H x I). }
  rewrite <- sum_skips_missing, E. reflexivity.
Qed.

(** X18: the world average across years.  The time series of tab 1 has
    one point for each year of the table, in ascending order of the
    year, and none for the empty table.  Its value is the mean of the
    metric over the rows of the year that have a value: the rows with a
    missing value count neither in the sum nor in the number of rows,
    and a year in which every value is missing has the average NaN. *)
Theorem global_time_series_points (m : metric) (data : list Canon) :
  Sorted Z.lt (map fst (global_time_series m data))
  /\ (forall y, In y (map fst (global_time_series m data))
                <-> exists r, In r data /\ Year (base r) = y)
  /\ (forall y v,
        In (y, v) (global_time_series m data) ->
        v = mean (map (column m) (filter (present m) (year_slice y data)))
        /\ ((forall r, In r (year_slice y data) ->
                       F64.is_nan (column m r) = true) ->
            v = F64.nan)).
Proof.
  unfold global_time_series. rewrite map_map. simpl. rewrite map_id.
  split; [|split].
  - pose proof (labels_sorted Z.compare Z.compare_antisym
                  (map (fun r => Year (base r)) data)) as S.
    exact S.
  - intros y. rewrite (in_labels Z.compare Z.compare_eq).
    rewrite in_map_iff. split; intros (r & H1 & H2); eauto.
  - intros y v I. apply in_map_iff in I. destruct I as (y' & E & _).
    inversion E; subst. split.
    + rewrite <- (mean_skips_missing (map _ (year_slice y data))).
      f_equal. unfold present. now rewrite filter_map_comm.
    + intros H. apply mean_all_missing. apply Forall_map, Forall_forall.
      exact H.
Qed.

(** ** The continental totals of tab 2 *)

Lemma ckey_compare_eq (a b : ckey) : ckey_compare a b = Eq -> a = b.
Proof.
  destruct a as [a1 a2], b as [b1 b2]. unfold ckey_compare, lex. simpl.
  destruct (String.compare a1 b1) eqn:E1; try discriminate.
  intros E2. apply String.compare_eq_iff in E1. apply Z.compare_eq in E2.
  now subst.
Qed.

Lemma ckey_compare_antisym (a b : ckey) :
  ckey_compare b a = CompOpp (ckey_compare a b).
Proof.
  destruct a as [a1 a2], b as [b1 b2]. unfold ckey_compare, lex. simpl.
  rewrite (String.compare_antisym b1 a1), (Z.compare_antisym a2 b2).
  destruct (String.compare a1 b1); reflexivity.
Qed.

Lemma ckey_compare_trans (a b c : ckey) :
  ckey_compare a b = Lt -> ckey_compare b c = Lt -> ckey_compare a c = Lt.
Proof.
  destruct a as [a1 a2], b as [b1 b2], c as [c1 c2].
  unfold ckey_compare, lex. simpl.
  destruct (String.compare a1 b1) eqn:A1; try discriminate;
    destruct (String.compare b1 c1) eqn:B1; try discriminate;
    try apply String.compare_eq_iff in A1;
    try apply String.compare_eq_iff in B1; subst;
    rewrite ?A1, ?B1, ?(string_compare_lt_trans _ _ _ A1 B1);
    try reflexivity.
  rewrite string_compare_refl. rewrite !Z.compare_lt_iff. lia.
Qed.

Lemma in_ckeys_of (k : ckey) (data : list Canon) :
  In k (ckeys_of data)
  <-> exists r, In r data /\ Continent (base r) = Some (fst k)
                /\ Year (base r) = snd k.
Proof.
  induction data as [|r data IH]; simpl.
  - split; [tauto | intros (r & [] & _)].
  - destruct (Continent (base r)) as [c|] eqn:E; simpl; rewrite ?IH; split.
    + intros [<-|(r' & I & H)]; [exists r; simpl; auto | eauto].
    + intros (r' & [->|I] & C & Y); [|eauto].
      left. destruct k. simpl in *. congruence.
    + intros (r' & I & H); eauto.
    + intros (r' & [->|I] & C & Y); [congruence | eauto].
Qed.

Lemma in_cell_spec (k : ckey) (r : Canon) :
  in_cell k r = true
  <-> Continent (base r) = Some (fst k) /\ Year (base r) = snd k.
Proof.
  unfold in_cell. destruct (Continent (base r)) as [c|].
  - rewrite andb_true_iff, String.eqb_eq, Z.eqb_eq.
    split; intros [H1 H2]; split; congruence.
  - split; [discriminate | intros [H _]; discriminate].
Qed.

(** X19: the continental table.  The export of tab 2 has one row for
    each (continent, year) that occurs in the table, in ascending order
    of that pair; a row of the table with a continent lies in the cell
    of exactly one of these rows; and the column of a metric in the
    export is the frame drawn for that metric. *)
Theorem continental_cells (data : list Canon) :
  let cells := map (fun c => (cr_Continent c, cr_Year c))
                   (continental_df data) in
  Sorted (fun a b => ckey_compare a b = Lt) cells
  /\ NoDup cells
  /\ (forall k, In k cells
                <-> exists r, In r data /\ Continent (base r) = Some (fst k)
                              /\ Year (base r) = snd k)
  /\ (forall r c, In r data -> Continent (base r) = Some c ->
        forall k, In k cells ->
                  (in_cell k r = true <-> k = (c, Year (base r))))
  /\ map (fun c => (cr_Continent c, cr_Year c, cr_Import c))
         (continental_df data)
     = continent_plot_df M_Import data.
Proof.
  cbv zeta. unfold continental_df, continent_plot_df.
  rewrite !map_map. cbn [cr_Continent cr_Year cr_Import].
  rewrite (map_ext (fun x : ckey => (fst x, snd x)) (fun x => x))
    by (intros [a b]; reflexivity).
  rewrite map_id. split; [|split; [|split; [|split]]].
  - apply labels_sorted, ckey_compare_antisym.
  - apply labels_NoDup.
    + apply ckey_compare_antisym.
    + apply ckey_compare_trans.
  - intros k. rewrite (in_labels ckey_compare ckey_compare_eq).
    apply in_ckeys_of.
  - intros r c I C k _. rewrite in_cell_spec, C. destruct k as [kc ky].
    simpl. split.
    + intros [H1 H2]. congruence.
    + intros H. inversion H. auto.
  - apply map_ext. intros [a b]. reflexivity.
Qed.

